(** * circa-backend: the concept routes over a document collection

    A shallow embedding of [src/app/routes/concepts.py]: the six
    coroutines of the concept router ([find_concept_by_id], [add_concept],
    [get_concepts], [get_concept_by_id], [update_concept],
    [delete_concept]) become functions in a state-and-exception monad over
    a world that holds the [concepts] collection and a chronological trace
    of the calls made to the database and to the embedding function.

    MongoDB documents are Python dicts, modelled as [gmap string value];
    the collection is a list of documents in natural (insertion) order. *)

From Stdlib Require Import ZArith Ascii String.
From stdpp Require Import base option list gmap fin_maps strings pretty.

Local Open Scope Z_scope.

(** ** What the routes import from outside the repository

    [bson.ObjectId] (parsing and rendering of identifiers), the embedding
    helper pair [calculate_normalized_embeddings] / [tensor_to_list] of
    [app.helpers.similarity], Python's [float] and [repr] on [str]. They are
    kept abstract: every result below holds for any implementation. *)
Class Externals := {
  (** Python floats, compared and printed only. *)
  pyfloat : Type;
  pyfloat_eq_dec :: EqDecision pyfloat;
  float_repr : pyfloat → string;
  (** [bson.ObjectId] values. *)
  oid : Type;
  oid_eq_dec :: EqDecision oid;
  (** [ObjectId(s)] on a [str]: [None] stands for [errors.InvalidId]. *)
  ObjectId_parse : string → option oid;
  (** [str(object_id)]. *)
  oid_str : oid → string;
  (** [repr(s)] on a [str], used by the [f"{id=}"] messages. *)
  str_repr : string → string;
  (** [app.helpers.similarity]. *)
  tensor : Type;
  calculate_normalized_embeddings : string → tensor;
  tensor_to_list : tensor → list pyfloat
}.

(** ** Exceptions

    [HTTPException] is what the routes raise themselves; the others are
    raised by the calls they make and reach the framework when they are
    not caught. *)

Inductive exn :=
  | HTTPException (status_code : Z) (detail : string)
  | InvalidId (s : string)
  | KeyError (k : string)
  | DuplicateKeyError
  | ValidationError.

Inductive result (A : Type) :=
  | Ok (a : A)
  | Raise (e : exn).
Arguments Ok {A} a.
Arguments Raise {A} e.

Section Model.
Context `{Ext : Externals}.

(** ** Documents *)

(** The values a concept document holds: [None], a [str], an [ObjectId],
    a list of floats. *)
Inductive value :=
  | VNone
  | VStr (s : string)
  | VOid (o : oid)
  | VList (l : list pyfloat).

#[export] Instance value_eq_dec : EqDecision value.
Proof. solve_decision. Defined.

Abbreviation document := (gmap string value).

(** [str(v)], as an f-string placeholder [{v}] renders it. *)
Definition py_str (v : value) : string :=
  match v with
  | VNone => "None"
  | VStr s => s
  | VOid o => oid_str o
  | VList l => "[" +:+ String.concat ", " (float_repr <$> l) +:+ "]"
  end.

(** [d.get(k, default)]. *)
Definition dict_get (d : document) (k : string) (default : value) : value :=
  match d !! k with
  | Some v => v
  | None => default
  end.

(** [k in d]. *)
Definition dict_in (k : string) (d : document) : bool :=
  bool_decide (is_Some (d !! k)).

(** Truthiness of a dict: [bool(d)] is [len(d) != 0]. *)
Definition dict_truthy (d : document) : bool :=
  negb (bool_decide (d = ∅)).

(** ** The world: collection and call trace *)

Inductive event :=
  | DbFindOne (id : value)
  | DbFind
  | DbInsertOne (doc : document)
  | DbUpdateOne (id : value) (set : document)
  | DbDeleteOne (id : value)
  | EmbedCall (text : string).

Definition is_write (e : event) : bool :=
  match e with
  | DbInsertOne _ | DbUpdateOne _ _ | DbDeleteOne _ => true
  | _ => false
  end.

Definition is_embed (e : event) : bool :=
  match e with
  | EmbedCall _ => true
  | _ => false
  end.

Record world := World {
  concepts : list document;
  trace : list event
}.

Definition log (e : event) (w : world) : world :=
  World (concepts w) (trace w ++ [e]).

(** ** The monad of the coroutines *)

Definition M (A : Type) : Type := world → result A * world.

#[export] Instance M_ret : MRet M := λ A a w, (Ok a, w).

#[export] Instance M_bind : MBind M := λ A B f c w,
  match c w with
  | (Ok a, w') => f a w'
  | (Raise e, w') => (Raise e, w')
  end.

Definition raise {A} (e : exn) : M A := λ w, (Raise e, w).

(** [try: c / except errors.InvalidId: h]. *)
Definition except_InvalidId {A} (c : M A) (h : M A) : M A := λ w,
  match c w with
  | (Raise (InvalidId _), w') => h w'
  | r => r
  end.

(** [d[k]] on a dict. *)
Definition dict_getitem (d : document) (k : string) : M value :=
  match d !! k with
  | Some v => mret v
  | None => raise (KeyError k)
  end.

(** [ObjectId(s)]. *)
Definition ObjectId (s : string) : M oid :=
  match ObjectId_parse s with
  | Some o => mret o
  | None => raise (InvalidId s)
  end.

(** The embedding call of [update_concept], recorded in the trace. *)
Definition embed (text : string) : list pyfloat :=
  tensor_to_list (calculate_normalized_embeddings text).

Definition call_embed (text : string) : M (list pyfloat) := λ w,
  (Ok (embed text), log (EmbedCall text) w).

(** ** The collection API used by the routes *)

(** The filter [{"_id": v}]. *)
Definition matches_id (v : value) (d : document) : bool :=
  bool_decide (d !! "_id" = Some v).

Fixpoint coll_find_one (v : value) (c : list document) : option document :=
  match c with
  | [] => None
  | d :: c' => if matches_id v d then Some d else coll_find_one v c'
  end.

(** [$set]: the listed fields overwrite, the others stay. *)
Fixpoint coll_update_one (v : value) (set : document) (c : list document)
  : list document :=
  match c with
  | [] => []
  | d :: c' =>
      if matches_id v d then (set ∪ d) :: c'
      else d :: coll_update_one v set c'
  end.

(** Removes the first match; the count is [deleted_count]. *)
Fixpoint coll_delete_one (v : value) (c : list document) : Z * list document :=
  match c with
  | [] => (0, [])
  | d :: c' =>
      if matches_id v d then (1, c')
      else let '(n, c'') := coll_delete_one v c' in (n, d :: c'')
  end.

Definition find_one (v : value) : M (option document) := λ w,
  (Ok (coll_find_one v (concepts w)), log (DbFindOne v) w).

(** [find()] followed by [to_list(length=n)]. *)
Definition find_to_list (n : nat) : M (list document) := λ w,
  (Ok (take n (concepts w)), log DbFind w).

(** [insert_one(doc)]: the driver adds an ["_id"] when the document has
    none ([gen] is the [ObjectId()] it generates), the server refuses a
    duplicate ["_id"]. Returns [inserted_id]. *)
Definition insert_one (gen : oid) (doc : document) : M value := λ w,
  let doc' := match doc !! "_id" with
              | Some _ => doc
              | None => <["_id" := VOid gen]> doc
              end in
  let i := dict_get doc' "_id" VNone in
  let w' := log (DbInsertOne doc') w in
  match coll_find_one i (concepts w) with
  | Some _ => (Raise DuplicateKeyError, w')
  | None => (Ok i, World (concepts w ++ [doc']) (trace w'))
  end.

Definition update_one (v : value) (set : document) : M unit := λ w,
  (Ok (), World (coll_update_one v set (concepts w))
                (trace w ++ [DbUpdateOne v set])).

(** Returns [deleted_count]. *)
Definition delete_one (v : value) : M Z := λ w,
  let '(n, c) := coll_delete_one v (concepts w) in
  (Ok n, World c (trace w ++ [DbDeleteOne v])).

(** ** The request and response models of [app.models.models] *)

(** Modelled from the spec: [app/models/models.py] is not part of the
    sources at hand. A concept has an identifier (alias ["_id"], rendered
    as a string, optional on input), a name, a usage and an optional
    list of floats. *)
Record ConceptModel := {
  cm_id : option string;
  cm_name : string;
  cm_usage : string;
  cm_normalized_embedding : option (list pyfloat)
}.

(** Modelled from the spec: the partial body of an update carries an
    optional name and an optional usage, nothing else. *)
Record UpdateConceptModel := {
  ucm_name : option string;
  ucm_usage : option string
}.

Definition opt_str (o : option string) : value :=
  match o with
  | Some s => VStr s
  | None => VNone
  end.

Definition opt_list (o : option (list pyfloat)) : value :=
  match o with
  | Some l => VList l
  | None => VNone
  end.

(** [concept.model_dump(by_alias=True, exclude=["id"])]: every declared
    field but the identifier, an unset optional field as [None]. *)
Definition ConceptModel_model_dump_exclude_id (c : ConceptModel) : document :=
  {[ "name" := VStr (cm_name c);
     "usage" := VStr (cm_usage c);
     "normalized_embedding" := opt_list (cm_normalized_embedding c) ]}.

(** [update_data.model_dump(by_alias=True)]. *)
Definition UpdateConceptModel_model_dump (u : UpdateConceptModel) : document :=
  {[ "name" := opt_str (ucm_name u); "usage" := opt_str (ucm_usage u) ]}.

(** Validation of the fields of a stored document against
    [ConceptModel]; the identifier is rendered as a string. *)
Definition ConceptModel_validate (d : document) : option ConceptModel :=
  match d !! "name", d !! "usage" with
  | Some (VStr n), Some (VStr u) =>
      match d !! "normalized_embedding" with
      | None | Some VNone => Some (Build_ConceptModel (py_str <$> d !! "_id") n u None)
      | Some (VList l) => Some (Build_ConceptModel (py_str <$> d !! "_id") n u (Some l))
      | Some _ => None
      end
  | _, _ => None
  end.

(** The constructor [ConceptModel] applied to the fields of a stored
    document. *)
Definition ConceptModel_new (d : document) : M ConceptModel :=
  match ConceptModel_validate d with
  | Some m => mret m
  | None => raise ValidationError
  end.

Record JSONResponse := {
  content_message : string;
  response_status_code : Z
}.

(** ** The routes *)

(** Finds a concept by id and returns it; raises for an invalid id format
    and for a concept that does not exist. *)
Definition find_concept_by_id (id : string) : M document :=
  object_id ← except_InvalidId (ObjectId id)
    (raise (HTTPException 400 ("Invalid concept ID format: " +:+ id)));
  concept ← find_one (VOid object_id);
  match concept with
  | Some c =>
      if dict_truthy c then mret c
      else raise (HTTPException 404 ("Concept not found with id=" +:+ id))
  | None => raise (HTTPException 404 ("Concept not found with id=" +:+ id))
  end.

(** Inserts a concept record (id ignored) and returns it. [gen] is the
    identifier the driver generates for this insertion. *)
Definition add_concept (gen : oid) (concept : ConceptModel)
  : M (option document) :=
  new_concept ← insert_one gen (ConceptModel_model_dump_exclude_id concept);
  find_one new_concept.

(** Fetches all concepts; results limited to 1000 records. *)
Definition get_concepts : M (list ConceptModel) :=
  concepts ← find_to_list 1000;
  mapM ConceptModel_new concepts.

(** Finds one concept record by id: the route, written out a second
    time in the source with its own messages. *)
Definition get_concept_by_id (id : string) : M document :=
  object_id ← except_InvalidId (ObjectId id)
    (raise (HTTPException 400 ("Invalid user ID format: " +:+ id)));
  concept ← find_one (VOid object_id);
  match concept with
  | Some c =>
      if dict_truthy c then mret c
      else raise (HTTPException 404 ("Concept not found id=" +:+ str_repr id))
  | None => raise (HTTPException 404 ("Concept not found id=" +:+ str_repr id))
  end.

(** The dict comprehension of [update_concept]: the fields that are not
    [None]. *)
Definition update_data_dict_of (update_data : UpdateConceptModel) : document :=
  filter (λ kv, kv.2 ≠ VNone) (UpdateConceptModel_model_dump update_data).

(** Updates an existing concept on name or usage, or returns the
    existing concept when the body provides neither; the embedding of an
    updated concept is recomputed. *)
Definition update_concept (id : string) (update_data : UpdateConceptModel)
  : M (option document) :=
  concept ← find_concept_by_id id;
  let update_data_dict := update_data_dict_of update_data in
  update_data_dict ←
    (if dict_in "name" update_data_dict || dict_in "usage" update_data_dict
     then
       old_name ← dict_getitem concept "name";
       old_usage ← dict_getitem concept "usage";
       let embed_string :=
         py_str (dict_get update_data_dict "name" old_name) +:+ ": "
         +:+ py_str (dict_get update_data_dict "usage" old_usage) in
       e ← call_embed embed_string;
       mret (<["normalized_embedding" := VList e]> update_data_dict)
     else mret update_data_dict);
  if dict_truthy update_data_dict then
    i ← dict_getitem concept "_id";
    update_one i update_data_dict;;
    i' ← dict_getitem concept "_id";
    find_one i'
  else mret (Some concept).

(** Deletes a concept by id. [ObjectId] is called outside any [try]. *)
Definition delete_concept (id : string) : M JSONResponse :=
  object_id ← ObjectId id;
  deleted_count ← delete_one (VOid object_id);
  if deleted_count =? 1 then
    mret (Build_JSONResponse ("Concept with id=" +:+ str_repr id +:+ " deleted.") 200)
  else
    raise (HTTPException 404 ("Concept with id=" +:+ str_repr id +:+ " not found.")).

(** ** Vocabulary of the statements *)

(** The HTTP status a raised exception carries, if it is an
    [HTTPException]. *)
Definition status_of {A} (r : result A) : option Z :=
  match r with
  | Raise (HTTPException s _) => Some s
  | _ => None
  end.

(** The chosen value for a field: the one of the changeset when there is
    one, the stored one otherwise. *)
Definition effective (change : option string) (stored : string) : string :=
  default stored change.

(** The text the embedding of a concept is computed from. *)
Definition embed_text (name usage : string) : string :=
  name +:+ ": " +:+ usage.

(** Two responses agree: the same value, or an [HTTPException] with the
    same status. *)
Definition same_response {A} (r r' : result A) : Prop :=
  match r, r' with
  | Ok a, Ok a' => a = a'
  | Raise (HTTPException s _), Raise (HTTPException s' _) => s = s'
  | _, _ => False
  end.

(** A run from [w] to [w'] only read the database: the collection is the
    same and the events it appended are neither writes nor embedding
    calls. *)
Definition read_only (w w' : world) : Prop :=
  concepts w' = concepts w ∧
  ∃ es, trace w' = trace w ++ es ∧
        Forall (λ e, is_write e = false ∧ is_embed e = false) es.

(** The failure modes of resolving [id] in [w], read off a response [r]:
    status 400 exactly for an identifier that does not parse, status 404
    exactly for one that parses and that no stored record carries. *)
Definition failure_modes {A} (id : string) (w : world) (r : result A) : Prop :=
  (status_of r = Some 400 ↔ ObjectId_parse id = None) ∧
  (status_of r = Some 404 ↔
     ∃ o, ObjectId_parse id = Some o ∧
          ∀ d : document, d ∈ concepts w → d !! "_id" ≠ Some (VOid o)).

(** The embedding of a record is the one of its current name and usage. *)
Definition embedding_consistent (d : document) : Prop :=
  ∃ vn vu, d !! "name" = Some vn ∧ d !! "usage" = Some vu ∧
    d !! "normalized_embedding"
    = Some (VList (embed (embed_text (py_str vn) (py_str vu)))).

(** The identifiers of a collection are pairwise distinct, as the unique
    index on ["_id"] guarantees. *)
Definition unique_ids (c : list document) : Prop :=
  NoDup ((λ d : document, d !! "_id") <$> c) ∧
  Forall (λ d : document, is_Some (d !! "_id")) c.

(** ** The router

    The five routes of the router, as requests; a creation carries the
    identifier the driver generates for it. *)
Inductive request :=
  | POST_concepts (gen : oid) (body : ConceptModel)
  | GET_concepts
  | GET_concept (id : string)
  | PUT_concept (id : string) (body : UpdateConceptModel)
  | DELETE_concept (id : string).

(** The world a request leaves behind, whatever it answers. *)
Definition serve (r : request) (w : world) : world :=
  match r with
  | POST_concepts gen body => (add_concept gen body w).2
  | GET_concepts => (get_concepts w).2
  | GET_concept id => (get_concept_by_id id w).2
  | PUT_concept id body => (update_concept id body w).2
  | DELETE_concept id => (delete_concept id w).2
  end.

Definition serve_all (rs : list request) (w : world) : world :=
  foldl (λ w r, serve r w) w rs.

(** A collection as the routes keep it: distinct identifiers, and every
    document a valid concept. *)
Definition well_kept (c : list document) : Prop :=
  unique_ids c ∧ Forall (λ d, is_Some (ConceptModel_validate d)) c.

End Model.

Abbreviation document := (gmap string value).

(** ** A concrete runtime, to run the routes on examples

    Identifiers are the 24 hexadecimal digits of an [ObjectId] in lower
    case; floats are stood for by integers (the routes store and compare
    them, nothing else); the embedding of a text is a one-element vector
    holding its length. *)
Module Sample.

Definition is_hex (a : ascii) : bool :=
  let n := nat_of_ascii a in
  ((48 <=? n) && (n <=? 57) || (65 <=? n) && (n <=? 70)
   || (97 <=? n) && (n <=? 102))%nat.

Definition lower (a : ascii) : ascii :=
  let n := nat_of_ascii a in
  if ((65 <=? n) && (n <=? 90))%nat then ascii_of_nat (n + 32) else a.

Definition parse_hex24 (s : string) : option string :=
  let cs := list_ascii_of_string s in
  if (length cs =? 24)%nat && forallb is_hex cs
  then Some (string_of_list_ascii (lower <$> cs))
  else None.

#[export] Instance runtime : Externals := {|
  pyfloat := Z;
  float_repr := pretty;
  oid := string;
  ObjectId_parse := parse_hex24;
  oid_str := λ o, o;
  str_repr := λ s, "'" +:+ s +:+ "'";
  tensor := list Z;
  calculate_normalized_embeddings := λ text, [Z.of_nat (String.length text)];
  tensor_to_list := λ t, t
|}.

Definition id1 : string := "65f0a1b2c3d4e5f601234567".
Definition id2 : string := "65f0a1b2c3d4e5f601234568".
Definition id3 : string := "65f0a1b2c3d4e5f601234569".

(** A stored concept whose embedding was supplied by its creator. *)
Definition foo : document :=
  {[ "_id" := VOid id1; "name" := VStr "Foo"; "usage" := VStr "bar";
     "normalized_embedding" := VList [3; 4] ]}.

(** A stored concept created without an embedding. *)
Definition qux : document :=
  {[ "_id" := VOid id2; "name" := VStr "Qux"; "usage" := VStr "quux";
     "normalized_embedding" := VNone ]}.

Definition w0 : world := World [foo; qux] [].

(** A collection of [n] concepts with distinct identifiers. *)
Definition nth_doc (i : nat) : document :=
  {[ "_id" := VOid (pretty i); "name" := VStr "n"; "usage" := VStr "u";
     "normalized_embedding" := VNone ]}.

Definition seeded (n : nat) : world := World (nth_doc <$> seq 0 n) [].

End Sample.

(** * Properties of the routes *)

Section Proofs.
Context `{Ext : Externals}.
Implicit Types (w : world) (d c : document) (v : value) (o : oid).
Implicit Types (coll : list document) (id : string).

(** ** Runs *)

Lemma ret_run {A} (a : A) w : (mret a : M A) w = (Ok a, w).
Proof. reflexivity. Qed.

Lemma bind_run {A B} (c : M A) (f : A → M B) w :
  (c ≫= f) w =
    match c w with
    | (Ok a, w') => f a w'
    | (Raise e, w') => (Raise e, w')
    end.
Proof. reflexivity. Qed.

Lemma run_Ok_inj {A} (a b : A) w1 w2 :
  (Ok a, w1) = (Ok b, w2) → a = b ∧ w1 = w2.
Proof. by intros [= -> ->]. Qed.

Lemma run_Raise_inj {A} (e1 e2 : exn) w1 w2 :
  (@Raise A e1, w1) = (Raise e2, w2) → e1 = e2 ∧ w1 = w2.
Proof. by intros [= -> ->]. Qed.

(** ** Dicts *)

Lemma dict_truthy_lookup d k v : d !! k = Some v → dict_truthy d = true.
Proof.
  intros Hk. unfold dict_truthy.
  rewrite bool_decide_false; [done|].
  intros ->. by rewrite lookup_empty in Hk.
Qed.

Lemma dict_truthy_empty : dict_truthy (∅ : document) = false.
Proof. unfold dict_truthy. by rewrite bool_decide_true. Qed.

(** The changeset holds the fields of the body that are not [None]. *)
Lemma update_data_dict_of_lookup (u : UpdateConceptModel) k :
  update_data_dict_of u !! k =
    if decide (k = "name") then VStr <$> ucm_name u
    else if decide (k = "usage") then VStr <$> ucm_usage u
    else None.
Proof.
  unfold update_data_dict_of, UpdateConceptModel_model_dump.
  rewrite map_lookup_filter.
  destruct u as [n u]; simpl.
  repeat case_decide; subst; simplify_map_eq; try done.
  - by destruct n.
  - by destruct u.
Qed.

(** ** The collection *)

Lemma matches_id_true v d : matches_id v d = true ↔ d !! "_id" = Some v.
Proof. unfold matches_id. apply bool_decide_eq_true. Qed.

Lemma matches_id_false v d : matches_id v d = false ↔ d !! "_id" ≠ Some v.
Proof. unfold matches_id. apply bool_decide_eq_false. Qed.

Lemma coll_find_one_Some v coll d :
  coll_find_one v coll = Some d → d ∈ coll ∧ d !! "_id" = Some v.
Proof.
  induction coll as [|d' coll IH]; simpl; [done|].
  destruct (matches_id v d') eqn:Hm.
  - intros [= <-]. split; [left | by apply matches_id_true].
  - intros H. destruct (IH H). split; [by right | done].
Qed.

Lemma coll_find_one_None v coll :
  coll_find_one v coll = None ↔ ∀ d, d ∈ coll → d !! "_id" ≠ Some v.
Proof.
  induction coll as [|d' coll IH]; simpl.
  - split; [|done]. intros _ d Hd. by apply not_elem_of_nil in Hd.
  - destruct (matches_id v d') eqn:Hm.
    + split; [done|]. intros H. apply matches_id_true in Hm.
      destruct (H d'); [left | done].
    + rewrite IH. apply matches_id_false in Hm. split.
      * intros H d [->|Hd]%elem_of_cons; auto.
      * intros H d Hd. apply H. by right.
Qed.

(** A record that was found is never a falsy (empty) dict. *)
Lemma coll_find_one_truthy v coll d :
  coll_find_one v coll = Some d → dict_truthy d = true.
Proof. intros [_ H]%coll_find_one_Some. by eapply dict_truthy_lookup. Qed.

(** After [$set] of fields other than ["_id"], the same filter finds the
    merged record. *)
Lemma coll_find_one_update v (set : document) coll d :
  coll_find_one v coll = Some d → set !! "_id" = None →
  coll_find_one v (coll_update_one v set coll) = Some (set ∪ d).
Proof.
  intros Hf Hset. induction coll as [|d' coll IH]; simpl in *; [done|].
  destruct (matches_id v d') eqn:Hm; simpl.
  - injection Hf as <-. apply matches_id_true in Hm.
    assert (matches_id v (set ∪ d') = true) as ->; [|done].
    apply matches_id_true. rewrite lookup_union_r; done.
  - rewrite Hm. auto.
Qed.

Lemma coll_delete_one_None v coll :
  coll_find_one v coll = None → coll_delete_one v coll = (0, coll).
Proof.
  induction coll as [|d' coll IH]; simpl; [done|].
  destruct (matches_id v d'); [done|]. intros H. by rewrite IH.
Qed.

(** Deleting removes the record that [find_one] returns, and only it. *)
Lemma coll_delete_one_Some v coll d :
  coll_find_one v coll = Some d →
  ∃ l1 l2, coll = l1 ++ d :: l2 ∧ coll_delete_one v coll = (1, l1 ++ l2) ∧
           coll_find_one v l1 = None.
Proof.
  induction coll as [|d' coll IH]; simpl; [done|].
  destruct (matches_id v d') eqn:Hm.
  - intros [= <-]. by exists [], coll.
  - intros H. destruct (IH H) as (l1 & l2 & -> & Hd & Hn).
    exists (d' :: l1), l2. rewrite Hd. simpl. by rewrite Hm.
Qed.

Lemma coll_find_one_app v l1 l2 :
  coll_find_one v (l1 ++ l2) =
    match coll_find_one v l1 with
    | Some d => Some d
    | None => coll_find_one v l2
    end.
Proof.
  induction l1 as [|d' l1 IH]; simpl; [done|]. by destruct (matches_id v d').
Qed.

(** With distinct identifiers, a deleted identifier is gone. *)
Lemma coll_delete_one_gone v coll n coll' :
  unique_ids coll → coll_delete_one v coll = (n, coll') →
  coll_find_one v coll' = None.
Proof.
  intros [Hnd _] Hdel. destruct (coll_find_one v coll) as [d|] eqn:Hf.
  - destruct (coll_delete_one_Some _ _ _ Hf) as (l1 & l2 & -> & Hd & Hn).
    rewrite Hd in Hdel. injection Hdel as <- <-.
    rewrite coll_find_one_app, Hn.
    apply coll_find_one_None. intros d' Hd' Hid.
    apply coll_find_one_Some in Hf as [_ Hv].
    rewrite fmap_app, fmap_cons in Hnd.
    apply NoDup_app in Hnd as (_ & _ & Hnd).
    apply NoDup_cons in Hnd as [Hnot _].
    apply Hnot. rewrite Hv, <- Hid.
    apply (list_elem_of_fmap_2 (λ d : document, d !! "_id")). done.
  - rewrite coll_delete_one_None in Hdel by done. by injection Hdel as <- <-.
Qed.

(** ** Running the routes *)

Lemma find_concept_by_id_run id w :
  find_concept_by_id id w =
    match ObjectId_parse id with
    | None => (Raise (HTTPException 400 ("Invalid concept ID format: " +:+ id)), w)
    | Some o =>
        match coll_find_one (VOid o) (concepts w) with
        | Some c => (Ok c, log (DbFindOne (VOid o)) w)
        | None => (Raise (HTTPException 404 ("Concept not found with id=" +:+ id)),
                   log (DbFindOne (VOid o)) w)
        end
    end.
Proof.
  unfold find_concept_by_id, mbind, M_bind, except_InvalidId, ObjectId, find_one.
  destruct (ObjectId_parse id) as [o|]; simpl; [|done].
  destruct (coll_find_one _ _) as [c|] eqn:Hf; [|done].
  by rewrite (coll_find_one_truthy _ _ _ Hf).
Qed.

Lemma get_concept_by_id_run id w :
  get_concept_by_id id w =
    match ObjectId_parse id with
    | None => (Raise (HTTPException 400 ("Invalid user ID format: " +:+ id)), w)
    | Some o =>
        match coll_find_one (VOid o) (concepts w) with
        | Some c => (Ok c, log (DbFindOne (VOid o)) w)
        | None => (Raise (HTTPException 404 ("Concept not found id=" +:+ str_repr id)),
                   log (DbFindOne (VOid o)) w)
        end
    end.
Proof.
  unfold get_concept_by_id, mbind, M_bind, except_InvalidId, ObjectId, find_one.
  destruct (ObjectId_parse id) as [o|]; simpl; [|done].
  destruct (coll_find_one _ _) as [c|] eqn:Hf; [|done].
  by rewrite (coll_find_one_truthy _ _ _ Hf).
Qed.

(** The changeset is empty exactly when the body sets neither field. *)
Lemma update_data_dict_of_empty (u : UpdateConceptModel) :
  ucm_name u = None → ucm_usage u = None → update_data_dict_of u = ∅.
Proof.
  intros Hn Hu. apply map_eq. intros k.
  rewrite update_data_dict_of_lookup, Hn, Hu, lookup_empty.
  by repeat case_decide.
Qed.

Lemma update_data_dict_of_touched (u : UpdateConceptModel) :
  dict_in "name" (update_data_dict_of u) || dict_in "usage" (update_data_dict_of u)
  = bool_decide (is_Some (ucm_name u) ∨ is_Some (ucm_usage u)).
Proof.
  unfold dict_in. rewrite !update_data_dict_of_lookup. simpl.
  destruct (ucm_name u), (ucm_usage u); simpl;
    repeat (first [rewrite bool_decide_true by eauto
                  |rewrite bool_decide_false by (by intros [[??]|[??]] || by intros [??])]);
    done.
Qed.

Lemma dict_get_name (u : UpdateConceptModel) n :
  dict_get (update_data_dict_of u) "name" (VStr n)
  = VStr (effective (ucm_name u) n).
Proof.
  unfold dict_get. rewrite update_data_dict_of_lookup. simpl.
  by destruct (ucm_name u).
Qed.

Lemma dict_get_usage (u : UpdateConceptModel) n :
  dict_get (update_data_dict_of u) "usage" (VStr n)
  = VStr (effective (ucm_usage u) n).
Proof.
  unfold dict_get. rewrite update_data_dict_of_lookup. simpl.
  by destruct (ucm_usage u).
Qed.

(** A failure to resolve the record is the failure of the update. *)
Lemma update_concept_unresolved id u w e w' :
  find_concept_by_id id w = (Raise e, w') →
  update_concept id u w = (Raise e, w').
Proof. intros H. unfold update_concept, mbind, M_bind. by rewrite H. Qed.

(** The body sets neither field: nothing is computed, nothing written. *)
Lemma update_concept_noop id u w o c :
  ObjectId_parse id = Some o →
  coll_find_one (VOid o) (concepts w) = Some c →
  ucm_name u = None → ucm_usage u = None →
  update_concept id u w = (Ok (Some c), log (DbFindOne (VOid o)) w).
Proof.
  intros Hp Hf Hn Hu. unfold update_concept, mbind, M_bind.
  rewrite find_concept_by_id_run, Hp, Hf.
  rewrite update_data_dict_of_touched, bool_decide_false.
  2:{ rewrite Hn, Hu. by intros [[??]|[??]]. }
  simpl. rewrite update_data_dict_of_empty by done.
  by rewrite dict_truthy_empty.
Qed.

(** The body sets a name or a usage: the text is embedded, then the
    changeset with the new embedding is merged into the record. *)
Lemma update_concept_touched id u w o c vn vu :
  ObjectId_parse id = Some o →
  coll_find_one (VOid o) (concepts w) = Some c →
  c !! "name" = Some vn → c !! "usage" = Some vu →
  is_Some (ucm_name u) ∨ is_Some (ucm_usage u) →
  let ud := update_data_dict_of u in
  let text := py_str (dict_get ud "name" vn) +:+ ": "
              +:+ py_str (dict_get ud "usage" vu) in
  let cs := <["normalized_embedding" := VList (embed text)]> ud in
  update_concept id u w =
    (Ok (Some (cs ∪ c)),
     World (coll_update_one (VOid o) cs (concepts w))
           (trace w ++ [DbFindOne (VOid o); EmbedCall text;
                        DbUpdateOne (VOid o) cs; DbFindOne (VOid o)])).
Proof.
  intros Hp Hf Hn Hu Ht ud text cs. unfold update_concept, mbind, M_bind.
  rewrite find_concept_by_id_run, Hp, Hf.
  rewrite update_data_dict_of_touched, bool_decide_true by done.
  unfold dict_getitem. rewrite Hn, Hu. simpl.
  fold ud. fold text. fold cs.
  assert (dict_truthy cs = true) as ->.
  { apply (dict_truthy_lookup _ "normalized_embedding" (VList (embed text))).
    apply lookup_insert_eq. }
  destruct (coll_find_one_Some _ _ _ Hf) as [_ Hid]. rewrite Hid. simpl.
  unfold update_one, find_one. simpl.
  rewrite (coll_find_one_update _ _ _ c); [|done|].
  2:{ unfold cs, ud. rewrite lookup_insert_ne by done.
      by rewrite update_data_dict_of_lookup. }
  unfold log. simpl. by rewrite <- !app_assoc.
Qed.

(** The merged record: a field of the changeset takes its new value, any
    other field keeps the stored one. *)
Lemma merged_lookup (u : UpdateConceptModel) (e : list pyfloat) c k :
  (<["normalized_embedding" := VList e]> (update_data_dict_of u) ∪ c) !! k =
    if decide (k = "normalized_embedding") then Some (VList e)
    else if decide (k = "name") then
      match ucm_name u with Some n => Some (VStr n) | None => c !! "name" end
    else if decide (k = "usage") then
      match ucm_usage u with Some n => Some (VStr n) | None => c !! "usage" end
    else c !! k.
Proof.
  rewrite lookup_union, lookup_insert, update_data_dict_of_lookup.
  repeat case_decide; subst; try done.
  - by destruct (c !! "normalized_embedding").
  - destruct (ucm_name u); simpl; [by destruct (c !! "name")|].
    by destruct (c !! "name").
  - destruct (ucm_usage u); simpl; [by destruct (c !! "usage")|].
    by destruct (c !! "usage").
  - by destruct (c !! k).
Qed.

(** The record is resolved and the body sets a field, but the stored
    document lacks a name or a usage: the subscript raises. *)
Lemma update_concept_key_error id u w o c :
  ObjectId_parse id = Some o →
  coll_find_one (VOid o) (concepts w) = Some c →
  is_Some (ucm_name u) ∨ is_Some (ucm_usage u) →
  c !! "name" = None ∨ c !! "usage" = None →
  ∃ k, update_concept id u w = (Raise (KeyError k), log (DbFindOne (VOid o)) w).
Proof.
  intros Hp Hf Ht Hk. unfold update_concept, mbind, M_bind.
  rewrite find_concept_by_id_run, Hp, Hf.
  rewrite update_data_dict_of_touched, bool_decide_true by done.
  unfold dict_getitem.
  destruct (c !! "name") as [vn|]; simpl; [|by eexists].
  destruct Hk as [?|Hu]; [done|]. rewrite Hu. by eexists.
Qed.

(** Every run of [update_concept] is one of five. *)
Lemma update_concept_cases id u w :
  (ObjectId_parse id = None ∧
   update_concept id u w
   = (Raise (HTTPException 400 ("Invalid concept ID format: " +:+ id)), w)) ∨
  ∃ o, ObjectId_parse id = Some o ∧
    let w1 := log (DbFindOne (VOid o)) w in
    (coll_find_one (VOid o) (concepts w) = None ∧
     update_concept id u w
     = (Raise (HTTPException 404 ("Concept not found with id=" +:+ id)), w1)) ∨
    ∃ c, coll_find_one (VOid o) (concepts w) = Some c ∧
      ((ucm_name u = None ∧ ucm_usage u = None ∧
        update_concept id u w = (Ok (Some c), w1)) ∨
       ((is_Some (ucm_name u) ∨ is_Some (ucm_usage u)) ∧
        ((∃ k, update_concept id u w = (Raise (KeyError k), w1)) ∨
         ∃ vn vu, c !! "name" = Some vn ∧ c !! "usage" = Some vu ∧
           let ud := update_data_dict_of u in
           let text := py_str (dict_get ud "name" vn) +:+ ": "
                       +:+ py_str (dict_get ud "usage" vu) in
           let cs := <["normalized_embedding" := VList (embed text)]> ud in
           update_concept id u w =
             (Ok (Some (cs ∪ c)),
              World (coll_update_one (VOid o) cs (concepts w))
                    (trace w ++ [DbFindOne (VOid o); EmbedCall text;
                                 DbUpdateOne (VOid o) cs;
                                 DbFindOne (VOid o)]))))).
Proof.
  destruct (ObjectId_parse id) as [o|] eqn:Hp.
  2:{ left. split; [done|]. apply update_concept_unresolved.
      by rewrite find_concept_by_id_run, Hp. }
  right. exists o. split; [done|]. simpl.
  destruct (coll_find_one (VOid o) (concepts w)) as [c|] eqn:Hf.
  2:{ left. split; [done|]. apply update_concept_unresolved.
      by rewrite find_concept_by_id_run, Hp, Hf. }
  right. exists c. split; [done|].
  destruct (decide (is_Some (ucm_name u) ∨ is_Some (ucm_usage u))) as [Ht|Ht].
  - right. split; [done|].
    destruct (c !! "name") as [vn|] eqn:Hn.
    2:{ left. eapply update_concept_key_error; eauto. }
    destruct (c !! "usage") as [vu|] eqn:Hu.
    2:{ left. eapply update_concept_key_error; eauto. }
    right. exists vn, vu. split; [done|]. split; [done|].
    by apply update_concept_touched.
  - left.
    assert (ucm_name u = None) as Hn.
    { destruct (ucm_name u); [|done]. destruct Ht. left. eauto. }
    assert (ucm_usage u = None) as Hu.
    { destruct (ucm_usage u); [|done]. destruct Ht. right. eauto. }
    split; [done|]. split; [done|]. by apply update_concept_noop.
Qed.

Lemma coll_update_one_elem v (set : document) coll d :
  d ∈ coll_update_one v set coll →
  d ∈ coll ∨ ∃ c, coll_find_one v coll = Some c ∧ d = set ∪ c.
Proof.
  induction coll as [|d' coll IH]; simpl; [by left|].
  destruct (matches_id v d') eqn:Hm.
  - intros [->|Hd]%elem_of_cons; [right; eauto|]. left. by right.
  - intros [->|Hd]%elem_of_cons; [left; left|].
    destruct (IH Hd) as [?|?]; [left; by right | by right].
Qed.

(** The merged record carries the embedding of its own name and usage. *)
Lemma merged_consistent (u : UpdateConceptModel) c vn vu :
  c !! "name" = Some vn → c !! "usage" = Some vu →
  let ud := update_data_dict_of u in
  let text := py_str (dict_get ud "name" vn) +:+ ": "
              +:+ py_str (dict_get ud "usage" vu) in
  embedding_consistent (<["normalized_embedding" := VList (embed text)]> ud ∪ c).
Proof.
  intros Hn Hu ud text. unfold embedding_consistent.
  exists (dict_get ud "name" vn), (dict_get ud "usage" vu).
  subst text ud. rewrite !merged_lookup. simpl. unfold dict_get.
  rewrite !update_data_dict_of_lookup. simpl. rewrite Hn, Hu.
  by destruct (ucm_name u), (ucm_usage u).
Qed.

(** ** Update *)

(** C1. For a stored concept with name [n] and usage [us], an update that
    sets a name and/or a usage succeeds, and the record it returns, which
    is the record now stored under that identifier, has as
    [normalized_embedding] the embedding of the text
    "effective name: effective usage", where a field's effective value is
    the one of the body when it sets it and the stored one otherwise. *)
Theorem update_concept_embedding id (u : UpdateConceptModel) w o c n us :
  ObjectId_parse id = Some o →
  coll_find_one (VOid o) (concepts w) = Some c →
  c !! "name" = Some (VStr n) →
  c !! "usage" = Some (VStr us) →
  is_Some (ucm_name u) ∨ is_Some (ucm_usage u) →
  ∃ r w',
    update_concept id u w = (Ok (Some r), w') ∧
    coll_find_one (VOid o) (concepts w') = Some r ∧
    r !! "name" = Some (VStr (effective (ucm_name u) n)) ∧
    r !! "usage" = Some (VStr (effective (ucm_usage u) us)) ∧
    r !! "normalized_embedding" =
      Some (VList (embed (embed_text (effective (ucm_name u) n)
                                     (effective (ucm_usage u) us)))).
Proof.
  intros Hp Hf Hn Hu Ht.
  pose proof (update_concept_touched id u w o c _ _ Hp Hf Hn Hu Ht) as Hrun.
  simpl in Hrun. rewrite dict_get_name, dict_get_usage in Hrun. simpl in Hrun.
  eexists _, _. split; [exact Hrun|]. simpl.
  split.
  { apply coll_find_one_update; [done|].
    rewrite lookup_insert_ne by done. by rewrite update_data_dict_of_lookup. }
  rewrite !merged_lookup. simpl. unfold effective, embed_text.
  rewrite Hn, Hu. by destruct (ucm_name u), (ucm_usage u).
Qed.

(** C3. An update with a non-empty changeset, on a stored concept that has
    a name and a usage, succeeds, and in the record it returns (the one
    now stored) every field that is neither in the changeset nor the
    recomputed [normalized_embedding] has the value it had before. In
    particular a body that sets only the name leaves the usage and every
    field other than the name and the embedding as they were. *)
Theorem update_concept_frame id (u : UpdateConceptModel) w o c vn vu :
  ObjectId_parse id = Some o →
  coll_find_one (VOid o) (concepts w) = Some c →
  c !! "name" = Some vn →
  c !! "usage" = Some vu →
  update_data_dict_of u ≠ ∅ →
  ∃ r w',
    update_concept id u w = (Ok (Some r), w') ∧
    coll_find_one (VOid o) (concepts w') = Some r ∧
    (∀ k, k ≠ "normalized_embedding" → update_data_dict_of u !! k = None →
          r !! k = c !! k) ∧
    (ucm_usage u = None →
       r !! "usage" = c !! "usage" ∧
       ∀ k, k ≠ "name" → k ≠ "normalized_embedding" → r !! k = c !! k).
Proof.
  intros Hp Hf Hn Hu Hne.
  assert (is_Some (ucm_name u) ∨ is_Some (ucm_usage u)) as Ht.
  { destruct (ucm_name u) eqn:En; [by left; eauto|].
    destruct (ucm_usage u) eqn:Eu; [by right; eauto|].
    destruct Hne. by apply update_data_dict_of_empty. }
  pose proof (update_concept_touched id u w o c _ _ Hp Hf Hn Hu Ht) as Hrun.
  simpl in Hrun.
  eexists _, _. split; [exact Hrun|]. simpl.
  split.
  { apply coll_find_one_update; [done|].
    rewrite lookup_insert_ne by done. by rewrite update_data_dict_of_lookup. }
  split.
  - intros k Hk Hnone. rewrite merged_lookup.
    rewrite update_data_dict_of_lookup in Hnone.
    repeat case_decide; subst; try done.
    + by destruct (ucm_name u).
    + by destruct (ucm_usage u).
  - intros Hus. split.
    + rewrite merged_lookup. simpl. by rewrite Hus.
    + intros k Hk1 Hk2. rewrite merged_lookup.
      repeat case_decide; subst; try done. by rewrite Hus.
Qed.

(** C4. On an existing concept, a body whose two fields are both unset
    (an empty body, or one that carries only nulls) gives an empty
    changeset; the route returns the record it found, the collection is
    the same, and the only call made is the [find_one] that resolved the
    record: no write, no embedding call. *)
Theorem update_concept_no_op id (u : UpdateConceptModel) w o c :
  ObjectId_parse id = Some o →
  coll_find_one (VOid o) (concepts w) = Some c →
  ucm_name u = None → ucm_usage u = None →
  update_data_dict_of u = ∅ ∧
  ∃ w',
    update_concept id u w = (Ok (Some c), w') ∧
    concepts w' = concepts w ∧
    trace w' = trace w ++ [DbFindOne (VOid o)] ∧
    read_only w w'.
Proof.
  intros Hp Hf Hn Hu. split; [by apply update_data_dict_of_empty|].
  eexists. split; [by apply update_concept_noop|].
  split; [done|]. split; [done|].
  split; [done|]. eexists. split; [done|].
  by repeat constructor.
Qed.

(** C2, as amended. The record a successful update returns is the
    record stored under the identifier once the update is done. After an
    update that set a name or a usage, that stored record carries the
    embedding of its current "name: usage". An update that set neither
    returns a record of the collection and leaves the collection as it
    was. In both cases every record of the collection afterwards is
    either a record as it was stored before, or the returned one with its
    embedding recomputed: an update never changes a name or a usage
    without refreshing the embedding, and never stores an embedding
    chosen by the client. *)
Theorem update_concept_refreshes_embedding id (u : UpdateConceptModel) w r w' :
  update_concept id u w = (Ok (Some r), w') →
  (∃ o, ObjectId_parse id = Some o ∧
        coll_find_one (VOid o) (concepts w') = Some r) ∧
  r ∈ concepts w' ∧
  (is_Some (ucm_name u) ∨ is_Some (ucm_usage u) → embedding_consistent r) ∧
  (ucm_name u = None ∧ ucm_usage u = None →
     r ∈ concepts w ∧ concepts w' = concepts w) ∧
  (∀ d, d ∈ concepts w' → d ∈ concepts w ∨ (d = r ∧ embedding_consistent d)).
Proof.
  intros Hrun.
  destruct (update_concept_cases id u w) as [[_ H]|(o & Hp & [[_ H]|(c & Hf & H)])];
    [congruence..|].
  destruct H as [(Hn & Hu & H)|(Ht & [[k H]|(vn & vu & Hvn & Hvu & H)])];
    rewrite H in Hrun; [|discriminate Hrun|];
    apply run_Ok_inj in Hrun as [Hr <-]; apply (inj Some) in Hr as <-.
  - split; [by exists o|]. split; [by apply coll_find_one_Some in Hf as [? _]|].
    split; [|split].
    + rewrite Hn, Hu. by intros [[??]|[??]].
    + intros _. split; [|done]. by apply coll_find_one_Some in Hf as [? _].
    + intros d Hd. by left.
  - pose proof (merged_consistent u c vn vu Hvn Hvu) as Hc. simpl in Hc.
    match goal with
    | |- (∃ o', _ ∧ coll_find_one _ (concepts ?w1) = Some ?r1) ∧ _ =>
        assert (coll_find_one (VOid o) (concepts w1) = Some r1) as Hstored
    end.
    { simpl. apply coll_find_one_update; [done|].
      rewrite lookup_insert_ne by done. by rewrite update_data_dict_of_lookup. }
    split; [by exists o|].
    split; [by apply coll_find_one_Some in Hstored as [? _]|].
    split; [|split].
    + done.
    + intros [Hn Hu]. rewrite Hn, Hu in Ht. by destruct Ht as [[??]|[??]].
    + simpl. intros d [Hd|(c' & Hf' & ->)]%coll_update_one_elem; [by left|].
      right. rewrite Hf in Hf'. by injection Hf' as <-.
Qed.

(** A malformed identifier, or one that no record carries, makes the
    update fail with status 400, respectively 404. *)
Lemma update_concept_fails id (u : UpdateConceptModel) w :
  (ObjectId_parse id = None → status_of (update_concept id u w).1 = Some 400) ∧
  (∀ o, ObjectId_parse id = Some o →
        coll_find_one (VOid o) (concepts w) = None →
        status_of (update_concept id u w).1 = Some 404).
Proof.
  split.
  - intros Hp. pose proof (find_concept_by_id_run id w) as H.
    rewrite Hp in H. by rewrite (update_concept_unresolved _ u _ _ _ H).
  - intros o Hp Hf. pose proof (find_concept_by_id_run id w) as H.
    rewrite Hp, Hf in H. by rewrite (update_concept_unresolved _ u _ _ _ H).
Qed.

(** C10. Whenever an update fails, it has only read the database: the
    collection is unchanged and the calls made up to the failure contain
    no write and no embedding call. (The failures are those of resolving
    the record, status 400 and 404, see [update_concept_fails], and the
    missing-key failure of a stored document without name or usage.) *)
Theorem update_concept_failure_clean id (u : UpdateConceptModel) w e w' :
  update_concept id u w = (Raise e, w') →
  read_only w w'.
Proof.
  intros Hrun.
  destruct (update_concept_cases id u w) as [[_ H]|(o & Hp & [[_ H]|(c & Hf & H)])].
  - rewrite H in Hrun. apply run_Raise_inj in Hrun as [_ <-].
    split; [done|]. exists []. by rewrite app_nil_r.
  - rewrite H in Hrun. apply run_Raise_inj in Hrun as [_ <-].
    split; [done|]. eexists. split; [done|]. by repeat constructor.
  - destruct H as [(Hn & Hu & H)|(Ht & [[k H]|(vn & vu & Hvn & Hvu & H)])];
      rewrite H in Hrun; try discriminate Hrun.
    apply run_Raise_inj in Hrun as [_ <-].
    split; [done|]. eexists. split; [done|]. by repeat constructor.
Qed.

(** ** Resolving an identifier *)

Lemma find_concept_by_id_failure_modes id w :
  failure_modes id w (find_concept_by_id id w).1.
Proof.
  rewrite find_concept_by_id_run. unfold failure_modes.
  destruct (ObjectId_parse id) as [o|]; simpl.
  2:{ split; [done|]. split; [done|]. by intros (? & ? & _). }
  destruct (coll_find_one _ _) as [c|] eqn:Hf; simpl.
  - split; [done|]. split; [done|]. intros (o' & [= <-] & Hno).
    apply coll_find_one_None in Hno. congruence.
  - split; [done|]. split; [|done]. intros _. exists o. split; [done|].
    by apply coll_find_one_None.
Qed.

Lemma get_concept_by_id_failure_modes id w :
  failure_modes id w (get_concept_by_id id w).1.
Proof.
  rewrite get_concept_by_id_run. unfold failure_modes.
  destruct (ObjectId_parse id) as [o|]; simpl.
  2:{ split; [done|]. split; [done|]. by intros (? & ? & _). }
  destruct (coll_find_one _ _) as [c|] eqn:Hf; simpl.
  - split; [done|]. split; [done|]. intros (o' & [= <-] & Hno).
    apply coll_find_one_None in Hno. congruence.
  - split; [done|]. split; [|done]. intros _. exists o. split; [done|].
    by apply coll_find_one_None.
Qed.

Lemma update_concept_failure_modes id (u : UpdateConceptModel) w :
  failure_modes id w (update_concept id u w).1.
Proof.
  unfold failure_modes.
  destruct (update_concept_cases id u w) as [[Hp H]|(o & Hp & [[Hf H]|(c & Hf & H)])].
  - rewrite H, Hp. simpl. split; [done|]. split; [done|]. by intros (? & ? & _).
  - rewrite H, Hp. simpl. split; [done|]. split; [|done]. intros _.
    exists o. split; [done|]. by apply coll_find_one_None.
  - assert (status_of (update_concept id u w).1 = None) as ->.
    { destruct H as [(Hn & Hu & H)|(Ht & [[k H]|(vn & vu & Hvn & Hvu & H)])];
        by rewrite H. }
    rewrite Hp. split; [done|]. split; [done|]. intros (o' & [= <-] & Hno).
    apply coll_find_one_None in Hno. congruence.
Qed.

(** C5. The route [get_concept_by_id], the helper [find_concept_by_id]
    and [update_concept] fail with status 400 exactly when the identifier
    does not parse (whatever the collection holds) and with status 404
    exactly when it parses and no stored record carries it; otherwise the
    route and the helper return a stored record with that identifier. An
    update fails with the very exception the helper raises, and with no
    [HTTPException] once the helper has returned. *)
Theorem find_by_id_failure_modes id (u : UpdateConceptModel) w :
  failure_modes id w (get_concept_by_id id w).1 ∧
  failure_modes id w (find_concept_by_id id w).1 ∧
  failure_modes id w (update_concept id u w).1 ∧
  (∀ o c, ObjectId_parse id = Some o → c ∈ concepts w →
          c !! "_id" = Some (VOid o) →
          ∃ c', (get_concept_by_id id w).1 = Ok c' ∧
                (find_concept_by_id id w).1 = Ok c' ∧
                c' ∈ concepts w ∧ c' !! "_id" = Some (VOid o)) ∧
  (∀ e, (find_concept_by_id id w).1 = Raise e →
        (update_concept id u w).1 = Raise e) ∧
  (∀ c, (find_concept_by_id id w).1 = Ok c →
        status_of (update_concept id u w).1 = None).
Proof.
  split; [apply get_concept_by_id_failure_modes|].
  split; [apply find_concept_by_id_failure_modes|].
  split; [apply update_concept_failure_modes|].
  split; [|split].
  - intros o c Hp Hc Hid.
    rewrite get_concept_by_id_run, find_concept_by_id_run, Hp.
    destruct (coll_find_one (VOid o) (concepts w)) as [c'|] eqn:Hf.
    + exists c'. apply coll_find_one_Some in Hf as [? ?]. done.
    + exfalso. eapply coll_find_one_None; eauto.
  - intros e He. destruct (find_concept_by_id id w) as [r w1] eqn:Hrun.
    simpl in He. subst r. by erewrite update_concept_unresolved.
  - intros c Hc. rewrite find_concept_by_id_run in Hc.
    destruct (update_concept_cases id u w) as [[Hp H]|(o & Hp & [[Hf H]|(c' & Hf & H)])].
    + by rewrite Hp in Hc.
    + by rewrite Hp, Hf in Hc.
    + destruct H as [(Hn & Hu & H)|(Ht & [[k H]|(vn & vu & Hvn & Hvu & H)])];
        by rewrite H.
Qed.

(** C9. On every identifier and every world the route [get_concept_by_id]
    and the helper [find_concept_by_id] answer alike: both return the same
    record, or both raise an [HTTPException] with the same status; they
    leave the same world behind; and a failure is a 400 on an identifier
    that does not parse, a 404 on one that parses and is not found. *)
Theorem get_concept_by_id_agrees_with_helper id w :
  same_response (get_concept_by_id id w).1 (find_concept_by_id id w).1 ∧
  (get_concept_by_id id w).2 = (find_concept_by_id id w).2 ∧
  match ObjectId_parse id with
  | None => status_of (get_concept_by_id id w).1 = Some 400
  | Some o =>
      match coll_find_one (VOid o) (concepts w) with
      | None => status_of (get_concept_by_id id w).1 = Some 404
      | Some c => (get_concept_by_id id w).1 = Ok c
      end
  end.
Proof.
  rewrite get_concept_by_id_run, find_concept_by_id_run.
  destruct (ObjectId_parse id) as [o|]; simpl; [|done].
  by destruct (coll_find_one _ _).
Qed.

(** ** Delete *)

Lemma delete_concept_run id w o :
  ObjectId_parse id = Some o →
  delete_concept id w =
    (if (coll_delete_one (VOid o) (concepts w)).1 =? 1
     then Ok (Build_JSONResponse
                ("Concept with id=" +:+ str_repr id +:+ " deleted.") 200)
     else Raise (HTTPException 404
                   ("Concept with id=" +:+ str_repr id +:+ " not found.")),
     World (coll_delete_one (VOid o) (concepts w)).2
           (trace w ++ [DbDeleteOne (VOid o)])).
Proof.
  intros Hp. unfold delete_concept, mbind, M_bind, ObjectId, delete_one.
  rewrite Hp. simpl.
  destruct (coll_delete_one (VOid o) (concepts w)) as [n coll']. simpl.
  by destruct (n =? 1).
Qed.

(** A malformed identifier: [ObjectId] raises and nothing catches it. *)
Lemma delete_concept_malformed id w :
  ObjectId_parse id = None →
  delete_concept id w = (Raise (InvalidId id), w).
Proof.
  intros Hp. unfold delete_concept, mbind, M_bind, ObjectId. by rewrite Hp.
Qed.

(** X16. For an identifier that parses, in a collection with
    distinct identifiers: when a record carries it, the route answers
    with status 200 and removes that record and no other, and a second
    call with the same identifier fails with status 404; when no record
    carries it, the route fails with status 404 and the collection is as
    it was. *)
Theorem delete_concept_well_formed id w o :
  ObjectId_parse id = Some o →
  unique_ids (concepts w) →
  match coll_find_one (VOid o) (concepts w) with
  | Some c =>
      ∃ l1 l2 resp w',
        concepts w = l1 ++ c :: l2 ∧
        delete_concept id w = (Ok resp, w') ∧
        response_status_code resp = 200 ∧
        concepts w' = l1 ++ l2 ∧
        status_of (delete_concept id w').1 = Some 404 ∧
        concepts (delete_concept id w').2 = concepts w'
  | None =>
      status_of (delete_concept id w).1 = Some 404 ∧
      concepts (delete_concept id w).2 = concepts w
  end.
Proof.
  intros Hp Huniq.
  destruct (coll_find_one (VOid o) (concepts w)) as [c|] eqn:Hf.
  - destruct (coll_delete_one_Some _ _ _ Hf) as (l1 & l2 & Hc & Hd & Hn).
    assert (coll_find_one (VOid o) (l1 ++ l2) = None) as Hgone.
    { eapply coll_delete_one_gone; eauto. }
    exists l1, l2. eexists _, _. split; [done|].
    rewrite (delete_concept_run _ _ _ Hp), Hd. simpl.
    split; [done|]. split; [done|]. split; [done|].
    rewrite (delete_concept_run _ _ _ Hp). simpl.
    by rewrite (coll_delete_one_None _ _ Hgone).
  - rewrite (delete_concept_run _ _ _ Hp).
    by rewrite (coll_delete_one_None _ _ Hf).
Qed.

(** ** List *)

Lemma mapM_ConceptModel_new (l : list document) ms w :
  mapM ConceptModel_validate l = Some ms →
  mapM ConceptModel_new l w = (Ok ms, w).
Proof.
  revert ms. induction l as [|d l IH]; intros ms; simpl.
  - by intros [= <-].
  - destruct (ConceptModel_validate d) as [m|] eqn:Hd; simpl; [|done].
    destruct (mapM ConceptModel_validate l) as [ms'|]; simpl; [|done].
    intros [= <-]. rewrite bind_run. unfold ConceptModel_new at 1.
    by rewrite Hd, ret_run, bind_run, (IH ms'), ret_run.
Qed.

(** C7. When the first 1000 stored documents are valid concepts, the
    route returns their models, in the order of the collection: as many
    as the collection holds, and 1000 when it holds more. In particular
    1500 stored records give exactly 1000. The route only reads. *)
Theorem get_concepts_capped w :
  Forall (λ d, is_Some (ConceptModel_validate d)) (take 1000 (concepts w)) →
  ∃ ms w',
    get_concepts w = (Ok ms, w') ∧
    length ms = (length (concepts w) `min` 1000)%nat ∧
    (length ms ≤ 1000)%nat ∧
    (length (concepts w) = 1500%nat → length ms = 1000%nat) ∧
    (∀ i m, ms !! i = Some m →
       ∃ d, concepts w !! i = Some d ∧ ConceptModel_validate d = Some m) ∧
    read_only w w'.
Proof.
  intros Hvalid.
  destruct (mapM ConceptModel_validate (take 1000 (concepts w))) as [ms|] eqn:Hms.
  2:{ apply mapM_None in Hms. apply Exists_exists in Hms as (d & Hd & Hnone).
      rewrite Forall_forall in Hvalid. destruct (Hvalid d Hd) as [? ?]. congruence. }
  exists ms, (log DbFind w).
  assert (length ms = (length (concepts w) `min` 1000)%nat) as Hlen.
  { apply length_mapM in Hms. rewrite <- Hms, length_take. lia. }
  split.
  { unfold get_concepts, mbind, M_bind, find_to_list.
    by apply mapM_ConceptModel_new. }
  split; [done|]. split; [lia|]. split; [lia|]. split.
  - intros i m Hi. rewrite mapM_Some in Hms.
    destruct (Forall2_lookup_r _ _ _ _ _ Hms Hi) as (d & Hd & Hv).
    exists d. split; [|done]. by apply lookup_take_Some in Hd as [? _].
  - split; [done|]. exists [DbFind]. split; [done|]. by repeat constructor.
Qed.

(** ** Create *)

Lemma ConceptModel_model_dump_lookup (cm : ConceptModel) k :
  ConceptModel_model_dump_exclude_id cm !! k =
    if decide (k = "name") then Some (VStr (cm_name cm))
    else if decide (k = "usage") then Some (VStr (cm_usage cm))
    else if decide (k = "normalized_embedding")
         then Some (opt_list (cm_normalized_embedding cm))
    else None.
Proof.
  unfold ConceptModel_model_dump_exclude_id.
  repeat case_decide; subst; by simplify_map_eq.
Qed.

Lemma add_concept_run gen (cm : ConceptModel) w :
  coll_find_one (VOid gen) (concepts w) = None →
  let r := <["_id" := VOid gen]> (ConceptModel_model_dump_exclude_id cm) in
  add_concept gen cm w =
    (Ok (Some r),
     World (concepts w ++ [r])
           (trace w ++ [DbInsertOne r; DbFindOne (VOid gen)])).
Proof.
  intros Hfresh r. unfold add_concept, mbind, M_bind, insert_one, find_one.
  rewrite ConceptModel_model_dump_lookup. simpl. fold r.
  assert (r !! "_id" = Some (VOid gen)) as Hid by apply lookup_insert_eq.
  unfold dict_get. rewrite Hid, Hfresh. simpl.
  rewrite coll_find_one_app, Hfresh. simpl.
  assert (matches_id (VOid gen) r = true) as -> by by apply matches_id_true.
  unfold log. simpl. by rewrite <- app_assoc.
Qed.


(** ** Distinct identifiers are an invariant of the routes *)

Lemma coll_update_one_ids v (set : document) coll :
  set !! "_id" = None →
  (λ d : document, d !! "_id") <$> coll_update_one v set coll
  = (λ d : document, d !! "_id") <$> coll.
Proof.
  intros Hset. induction coll as [|d coll IH]; [done|].
  cbn [coll_update_one]. destruct (matches_id v d); rewrite !fmap_cons.
  - by rewrite lookup_union_r.
  - by rewrite IH.
Qed.

Lemma unique_ids_update_one v (set : document) coll :
  set !! "_id" = None → unique_ids coll →
  unique_ids (coll_update_one v set coll).
Proof.
  intros Hset [Hnd Hall]. split; [by rewrite coll_update_one_ids|].
  apply Forall_forall. intros d Hd.
  assert (d !! "_id" ∈ (λ d : document, d !! "_id") <$> coll) as Hin.
  { rewrite <- (coll_update_one_ids v set) by done.
    by apply (list_elem_of_fmap_2 (λ d : document, d !! "_id")). }
  apply list_elem_of_fmap in Hin as (d' & -> & Hd').
  rewrite Forall_forall in Hall. auto.
Qed.

Lemma unique_ids_delete_one v coll :
  unique_ids coll → unique_ids (coll_delete_one v coll).2.
Proof.
  intros Hu. destruct (coll_find_one v coll) as [d|] eqn:Hf.
  - destruct (coll_delete_one_Some _ _ _ Hf) as (l1 & l2 & -> & -> & _).
    destruct Hu as [Hnd Hall]. simpl. split.
    + rewrite fmap_app, fmap_cons in Hnd. rewrite fmap_app.
      apply NoDup_app in Hnd as (H1 & H2 & H3).
      apply NoDup_cons in H3 as [_ H3]. apply NoDup_app.
      split; [done|]. split; [|done].
      intros x Hx Hx'. apply (H2 x Hx). by right.
    + apply Forall_app in Hall as [H1 H2]. apply Forall_cons in H2 as [_ H2].
      by apply Forall_app.
  - by rewrite coll_delete_one_None.
Qed.

Lemma unique_ids_snoc coll d v :
  d !! "_id" = Some v → coll_find_one v coll = None → unique_ids coll →
  unique_ids (coll ++ [d]).
Proof.
  intros Hd Hf [Hnd Hall]. split.
  - rewrite fmap_app. apply NoDup_app. split; [done|]. split.
    + intros x Hx [->|Hx']%elem_of_cons; [|by apply not_elem_of_nil in Hx'].
      apply list_elem_of_fmap in Hx as (d' & Hd' & Hin).
      rewrite Hd in Hd'. symmetry in Hd'.
      by eapply coll_find_one_None in Hf.
    + apply NoDup_singleton.
  - apply Forall_app. split; [done|]. apply Forall_singleton. by rewrite Hd.
Qed.

(** Create, update and delete keep the identifiers distinct. *)
Lemma routes_preserve_unique_ids w :
  unique_ids (concepts w) →
  (∀ gen cm, unique_ids (concepts (add_concept gen cm w).2)) ∧
  (∀ id u, unique_ids (concepts (update_concept id u w).2)) ∧
  (∀ id, unique_ids (concepts (delete_concept id w).2)).
Proof.
  intros Hu. split; [|split].
  - intros gen cm. unfold add_concept. rewrite bind_run.
    unfold insert_one. rewrite ConceptModel_model_dump_lookup. simpl.
    set (r := <["_id" := VOid gen]> (ConceptModel_model_dump_exclude_id cm)).
    assert (r !! "_id" = Some (VOid gen)) as Hid by apply lookup_insert_eq.
    unfold dict_get. rewrite Hid.
    destruct (coll_find_one (VOid gen) (concepts w)) eqn:Hf; [done|].
    simpl. by eapply unique_ids_snoc.
  - intros id u.
    destruct (update_concept_cases id u w)
      as [[_ H]|(o & Hp & [[_ H]|(c & Hf & H)])]; [by rewrite H..|].
    destruct H as [(_ & _ & H)|(_ & [[k H]|(vn & vu & _ & _ & H)])];
      rewrite H; [done..|].
    simpl. apply unique_ids_update_one; [|done].
    rewrite lookup_insert_ne by done. by rewrite update_data_dict_of_lookup.
  - intros id. destruct (ObjectId_parse id) as [o|] eqn:Hp.
    + rewrite (delete_concept_run _ _ _ Hp). simpl.
      by apply unique_ids_delete_one.
    + by rewrite delete_concept_malformed.
Qed.

End Proofs.

(** * Further properties of the routes *)

Section More.
Context `{Ext : Externals}.
Implicit Types (w : world) (d c : document) (v : value) (o : oid).
Implicit Types (coll : list document) (id : string).

(** ** The collection, in place *)

Lemma coll_update_one_split v (set : document) coll c :
  coll_find_one v coll = Some c →
  ∃ l1 l2, coll = l1 ++ c :: l2 ∧ coll_find_one v l1 = None ∧
           coll_update_one v set coll = l1 ++ (set ∪ c) :: l2.
Proof.
  induction coll as [|d' coll IH]; simpl; [done|].
  destruct (matches_id v d') eqn:Hm.
  - intros Hc. apply (inj Some) in Hc as <-. by exists [], coll.
  - intros H. destruct (IH H) as (l1 & l2 & -> & Hn & Hu).
    exists (d' :: l1), l2. rewrite Hu. simpl. by rewrite Hm.
Qed.

Lemma coll_update_one_middle v (set : document) l1 d l2 :
  coll_find_one v l1 = None → d !! "_id" = Some v →
  coll_update_one v set (l1 ++ d :: l2) = l1 ++ (set ∪ d) :: l2.
Proof.
  intros Hn Hd. induction l1 as [|d' l1 IH]; simpl in *.
  - by rewrite (proj2 (matches_id_true v d) Hd).
  - destruct (matches_id v d'); [done|]. by rewrite IH.
Qed.

Lemma coll_delete_one_snoc v coll d :
  coll_find_one v coll = None → d !! "_id" = Some v →
  coll_delete_one v (coll ++ [d]) = (1, coll).
Proof.
  intros Hn Hd. induction coll as [|d' coll IH]; simpl in *.
  - by rewrite (proj2 (matches_id_true v d) Hd).
  - destruct (matches_id v d'); [done|]. by rewrite IH.
Qed.

Lemma changeset_no_id (u : UpdateConceptModel) (e : list pyfloat) :
  (<["normalized_embedding" := VList e]> (update_data_dict_of u) : document)
  !! "_id" = None.
Proof.
  rewrite lookup_insert_ne by done. by rewrite update_data_dict_of_lookup.
Qed.

(** ** More on update *)

(** X1. A successful update that sets a name or a usage rewrites the
    record where it stands: the collection before and after differ in
    that one position only, the order and the number of records are
    kept, and the record keeps its identifier. *)
Theorem update_concept_in_place id (u : UpdateConceptModel) w o c vn vu :
  ObjectId_parse id = Some o →
  coll_find_one (VOid o) (concepts w) = Some c →
  c !! "name" = Some vn →
  c !! "usage" = Some vu →
  is_Some (ucm_name u) ∨ is_Some (ucm_usage u) →
  ∃ r w' l1 l2,
    update_concept id u w = (Ok (Some r), w') ∧
    concepts w = l1 ++ c :: l2 ∧
    concepts w' = l1 ++ r :: l2 ∧
    r !! "_id" = Some (VOid o) ∧
    length (concepts w') = length (concepts w).
Proof.
  intros Hp Hf Hn Hu Ht.
  pose proof (update_concept_touched id u w o c _ _ Hp Hf Hn Hu Ht) as Hrun.
  simpl in Hrun.
  destruct (coll_update_one_split (VOid o)
              (<["normalized_embedding" :=
                   VList (embed (py_str (dict_get (update_data_dict_of u) "name" vn)
                                 +:+ ": " +:+
                                 py_str (dict_get (update_data_dict_of u) "usage" vu)))]>
                 (update_data_dict_of u)) _ _ Hf)
    as (l1 & l2 & Hc & _ & Hupd).
  eexists _, _, l1, l2. split; [exact Hrun|]. simpl.
  split; [done|]. split; [done|]. split.
  - rewrite lookup_union_r by apply changeset_no_id.
    by apply coll_find_one_Some in Hf as [_ ?].
  - rewrite Hupd, Hc. by rewrite !length_app.
Qed.

(** X2. Update is idempotent on the collection: repeating a successful
    update with the same body returns the same record and leaves the
    collection as the first call left it. *)
Theorem update_concept_idempotent id (u : UpdateConceptModel) w r w1 :
  update_concept id u w = (Ok (Some r), w1) →
  ∃ w2, update_concept id u w1 = (Ok (Some r), w2) ∧
        concepts w2 = concepts w1.
Proof.
  intros Hrun.
  destruct (update_concept_cases id u w)
    as [[_ H]|(o & Hp & [[_ H]|(c & Hf & H)])]; [congruence..|].
  destruct H as [(Hn & Hu & H)|(Ht & [[k H]|(vn & vu & Hvn & Hvu & H)])];
    rewrite H in Hrun; [|discriminate Hrun|];
    apply run_Ok_inj in Hrun as [Hr <-]; apply (inj Some) in Hr as <-.
  - eexists. split; [by apply (update_concept_noop id u _ o c)|done].
  - set (ud := update_data_dict_of u) in *.
    set (text := py_str (dict_get ud "name" vn) +:+ ": "
                 +:+ py_str (dict_get ud "usage" vu)) in *.
    set (cs := <["normalized_embedding" := VList (embed text)]> ud) in *.
    set (w1 := World (coll_update_one (VOid o) cs (concepts w)) _).
    assert (coll_find_one (VOid o) (concepts w1) = Some (cs ∪ c)) as Hf1.
    { apply coll_find_one_update; [done|]. apply changeset_no_id. }
    assert ((cs ∪ c) !! "name" = Some (dict_get ud "name" vn)) as Hn1.
    { unfold cs, ud. rewrite merged_lookup. simpl. unfold dict_get.
      rewrite update_data_dict_of_lookup. simpl. rewrite Hvn.
      by destruct (ucm_name u). }
    assert ((cs ∪ c) !! "usage" = Some (dict_get ud "usage" vu)) as Hu1.
    { unfold cs, ud. rewrite merged_lookup. simpl. unfold dict_get.
      rewrite update_data_dict_of_lookup. simpl. rewrite Hvu.
      by destruct (ucm_usage u). }
    pose proof (update_concept_touched id u w1 o (cs ∪ c) _ _ Hp Hf1 Hn1 Hu1 Ht)
      as Hrun2. simpl in Hrun2. fold ud in Hrun2.
    assert (dict_get ud "name" (dict_get ud "name" vn) = dict_get ud "name" vn)
      as Hnn by (unfold dict_get; by destruct (ud !! "name")).
    assert (dict_get ud "usage" (dict_get ud "usage" vu) = dict_get ud "usage" vu)
      as Huu by (unfold dict_get; by destruct (ud !! "usage")).
    rewrite Hnn, Huu in Hrun2. fold text in Hrun2. fold cs in Hrun2.
    assert (cs ∪ (cs ∪ c) = cs ∪ c) as Hidem.
    { by rewrite (assoc_L (∪)), (idemp_L (∪)). }
    rewrite Hidem in Hrun2.
    eexists. split; [exact Hrun2|]. simpl.
    destruct (coll_update_one_split (VOid o) cs _ _ Hf) as (l1 & l2 & _ & Hl1 & ->).
    rewrite coll_update_one_middle; [by rewrite Hidem|done|].
    rewrite lookup_union_r by apply changeset_no_id.
    by apply coll_find_one_Some in Hf as [_ ?].
Qed.

(** X3. The stored name and usage are read before the body is looked at:
    when the stored document lacks one of them, an update that sets a
    name or a usage raises the key error of the first missing field,
    even if the body supplies that very field. Nothing is embedded and
    nothing is written. *)
Theorem update_concept_missing_field id (u : UpdateConceptModel) w o c :
  ObjectId_parse id = Some o →
  coll_find_one (VOid o) (concepts w) = Some c →
  is_Some (ucm_name u) ∨ is_Some (ucm_usage u) →
  c !! "name" = None ∨ c !! "usage" = None →
  update_concept id u w =
    (Raise (KeyError (if decide (c !! "name" = None) then "name" else "usage")),
     log (DbFindOne (VOid o)) w).
Proof.
  intros Hp Hf Ht Hk. unfold update_concept. rewrite bind_run.
  rewrite find_concept_by_id_run, Hp, Hf.
  rewrite update_data_dict_of_touched, bool_decide_true by done.
  rewrite bind_run, bind_run. unfold dict_getitem at 1.
  destruct (c !! "name") as [vn|] eqn:Hn.
  - rewrite decide_False by done. rewrite ret_run, bind_run.
    unfold dict_getitem at 1. destruct Hk as [?|Hu]; [done|]. by rewrite Hu.
  - by rewrite decide_True.
Qed.

(** X8. The calls of an update come in one of three shapes: none (the
    identifier does not parse), the one [find_one] that resolves the
    record, or [find_one], one embedding call, one [update_one], and the
    [find_one] that reads the record back. So a write is always preceded
    by the embedding call whose result it stores, and there is at most
    one of each. *)
Theorem update_concept_call_sequence id (u : UpdateConceptModel) w :
  ∃ es, trace (update_concept id u w).2 = trace w ++ es ∧
    (es = [] ∨
     (∃ o, es = [DbFindOne (VOid o)]) ∨
     ∃ o text cs,
       es = [DbFindOne (VOid o); EmbedCall text;
             DbUpdateOne (VOid o) cs; DbFindOne (VOid o)] ∧
       cs !! "normalized_embedding" = Some (VList (embed text))).
Proof.
  destruct (update_concept_cases id u w)
    as [[_ H]|(o & Hp & [[_ H]|(c & Hf & H)])].
  - rewrite H. exists []. split; [by rewrite app_nil_r | by left].
  - rewrite H. eexists. split; [done|]. right. left. by eexists.
  - destruct H as [(Hn & Hu & H)|(Ht & [[k H]|(vn & vu & Hvn & Hvu & H)])];
      rewrite H.
    + eexists. split; [done|]. right. left. by eexists.
    + eexists. split; [done|]. right. left. by eexists.
    + eexists. split; [done|]. right. right. eexists _, _, _.
      split; [done|]. apply lookup_insert_eq.
Qed.

(** ** Identifiers that do not parse *)

(** X7. An identifier that does not parse never reaches the database:
    the three routes that take one and the helper leave the world,
    trace included, exactly as it was. The resolving ones answer 400;
    delete lets the parse error escape. *)
Theorem malformed_id_leaves_world id (u : UpdateConceptModel) w :
  ObjectId_parse id = None →
  (find_concept_by_id id w).2 = w ∧
  (get_concept_by_id id w).2 = w ∧
  (update_concept id u w).2 = w ∧
  delete_concept id w = (Raise (InvalidId id), w) ∧
  status_of (find_concept_by_id id w).1 = Some 400 ∧
  status_of (get_concept_by_id id w).1 = Some 400 ∧
  status_of (update_concept id u w).1 = Some 400.
Proof.
  intros Hp.
  destruct (update_concept_cases id u w) as [[_ H]|(o & Hp' & _)];
    [|congruence].
  rewrite find_concept_by_id_run, get_concept_by_id_run, H, Hp.
  repeat split. unfold delete_concept, ObjectId. by rewrite bind_run, Hp.
Qed.

(** ** Reading *)

Lemma mapM_ConceptModel_new_world (l : list document) w :
  (mapM ConceptModel_new l w).2 = w.
Proof.
  induction l as [|d l IH]; [done|].
  simpl. rewrite bind_run. unfold ConceptModel_new at 1.
  destruct (ConceptModel_validate d); [|done].
  rewrite ret_run, bind_run.
  destruct (mapM ConceptModel_new l w) as [[ms|e] w'] eqn:Hl;
    simpl in IH; by subst.
Qed.

Lemma mapM_ConceptModel_new_result (l : list document) w w' :
  (mapM ConceptModel_new l w).1 = (mapM ConceptModel_new l w').1.
Proof.
  revert w w'. induction l as [|d l IH]; intros w w'; [done|].
  simpl. rewrite !bind_run. unfold ConceptModel_new at 1 3.
  destruct (ConceptModel_validate d); [|done].
  rewrite !ret_run, !bind_run.
  pose proof (IH w w') as Heq.
  pose proof (mapM_ConceptModel_new_world l w) as H1.
  pose proof (mapM_ConceptModel_new_world l w') as H2.
  destruct (mapM ConceptModel_new l w) as [[ms|e] w1];
    destruct (mapM ConceptModel_new l w') as [[ms'|e'] w2];
    simpl in *; congruence.
Qed.

(** X12. The reading paths only read, whatever they answer: the route
    and the helper that resolve an identifier, and the listing even when
    a stored document fails validation, leave the collection as it is
    and make no write and no embedding call. *)
Theorem reads_are_read_only id w :
  read_only w (find_concept_by_id id w).2 ∧
  read_only w (get_concept_by_id id w).2 ∧
  read_only w (get_concepts w).2.
Proof.
  assert (∀ e, is_write e = false → is_embed e = false →
               read_only w (log e w)) as Hlog.
  { intros e ? ?. split; [done|]. exists [e]. split; [done|].
    by repeat constructor. }
  assert (read_only w w) as Hrefl.
  { split; [done|]. exists []. by rewrite app_nil_r. }
  rewrite find_concept_by_id_run, get_concept_by_id_run.
  split; [|split].
  - destruct (ObjectId_parse id); [|done].
    destruct (coll_find_one _ _); by apply Hlog.
  - destruct (ObjectId_parse id); [|done].
    destruct (coll_find_one _ _); by apply Hlog.
  - unfold get_concepts, find_to_list. rewrite bind_run.
    pose proof (mapM_ConceptModel_new_world
                  (take 1000 (concepts w)) (log DbFind w)) as Hw.
    destruct (mapM ConceptModel_new _ _) as [[ms|e] w']; simpl in Hw; subst w';
      by apply Hlog.
Qed.

(** ** Valid concepts *)

Lemma validate_fields d :
  is_Some (ConceptModel_validate d) →
  ∃ n us, d !! "name" = Some (VStr n) ∧ d !! "usage" = Some (VStr us).
Proof.
  unfold ConceptModel_validate. intros [m Hm].
  destruct (d !! "name") as [[|n| |]|]; try done.
  destruct (d !! "usage") as [[|us| |]|]; try done.
  by exists n, us.
Qed.

Lemma created_lookup gen (cm : ConceptModel) k :
  (<["_id" := VOid gen]> (ConceptModel_model_dump_exclude_id cm) : document) !! k =
    if decide (k = "_id") then Some (VOid gen)
    else ConceptModel_model_dump_exclude_id cm !! k.
Proof.
  rewrite lookup_insert. repeat case_decide; by subst.
Qed.

Lemma created_validate gen (cm : ConceptModel) :
  ConceptModel_validate (<["_id" := VOid gen]> (ConceptModel_model_dump_exclude_id cm))
  = Some (Build_ConceptModel (Some (oid_str gen)) (cm_name cm) (cm_usage cm)
                             (cm_normalized_embedding cm)).
Proof.
  unfold ConceptModel_validate.
  rewrite !created_lookup, !ConceptModel_model_dump_lookup. simpl.
  by destruct (cm_normalized_embedding cm).
Qed.

Lemma merged_validate (u : UpdateConceptModel) (e : list pyfloat) c :
  is_Some (ConceptModel_validate c) →
  is_Some (ConceptModel_validate
             (<["normalized_embedding" := VList e]> (update_data_dict_of u) ∪ c)).
Proof.
  intros (n & us & Hn & Hu)%validate_fields.
  unfold ConceptModel_validate. rewrite !merged_lookup. simpl.
  rewrite Hn, Hu. destruct (ucm_name u), (ucm_usage u); by eexists.
Qed.

Lemma add_concept_concepts gen (cm : ConceptModel) w :
  concepts (add_concept gen cm w).2 = concepts w ∨
  (coll_find_one (VOid gen) (concepts w) = None ∧
   concepts (add_concept gen cm w).2
   = concepts w ++ [<["_id" := VOid gen]> (ConceptModel_model_dump_exclude_id cm)]).
Proof.
  destruct (coll_find_one (VOid gen) (concepts w)) eqn:Hf.
  - left. unfold add_concept. rewrite bind_run. unfold insert_one.
    rewrite ConceptModel_model_dump_lookup. simpl.
    unfold dict_get. rewrite lookup_insert_eq. by rewrite Hf.
  - right. split; [done|]. by rewrite add_concept_run.
Qed.

Lemma reads_keep_concepts id w :
  concepts (get_concept_by_id id w).2 = concepts w ∧
  concepts (get_concepts w).2 = concepts w.
Proof.
  rewrite get_concept_by_id_run. split.
  - destruct (ObjectId_parse id); [|done]. by destruct (coll_find_one _ _).
  - unfold get_concepts, find_to_list. rewrite bind_run.
    pose proof (mapM_ConceptModel_new_world
                  (take 1000 (concepts w)) (log DbFind w)) as Hw.
    destruct (mapM ConceptModel_new _ _) as [[ms|e] w']; simpl in Hw; by subst w'.
Qed.

Lemma serve_valid (r : request) w :
  Forall (λ d, is_Some (ConceptModel_validate d)) (concepts w) →
  Forall (λ d, is_Some (ConceptModel_validate d)) (concepts (serve r w)).
Proof.
  intros Hv. destruct r as [gen cm| |id|id u|id]; simpl.
  - destruct (add_concept_concepts gen cm w) as [->|[_ ->]]; [done|].
    apply Forall_app. split; [done|]. apply Forall_singleton.
    rewrite created_validate. by eexists.
  - by rewrite (proj2 (reads_keep_concepts "" w)).
  - by rewrite (proj1 (reads_keep_concepts id w)).
  - destruct (update_concept_cases id u w)
      as [[_ H]|(o & Hp & [[_ H]|(c & Hf & H)])]; [by rewrite H..|].
    destruct H as [(_ & _ & H)|(_ & [[k H]|(vn & vu & _ & _ & H)])];
      rewrite H; [done..|].
    simpl.
    destruct (coll_update_one_split (VOid o)
                (<["normalized_embedding" :=
                     VList (embed (py_str (dict_get (update_data_dict_of u) "name" vn)
                                   +:+ ": " +:+
                                   py_str (dict_get (update_data_dict_of u) "usage" vu)))]>
                   (update_data_dict_of u)) _ _ Hf)
      as (l1 & l2 & Hc & _ & ->).
    rewrite Hc in Hv. apply Forall_app in Hv as [H1 H2].
    apply Forall_cons in H2 as [Hcv H2].
    apply Forall_app. split; [done|]. apply Forall_cons. split; [|done].
    by apply merged_validate.
  - destruct (ObjectId_parse id) as [o|] eqn:Hp.
    + rewrite (delete_concept_run _ _ _ Hp). simpl.
      destruct (coll_find_one (VOid o) (concepts w)) as [c|] eqn:Hf.
      * destruct (coll_delete_one_Some _ _ _ Hf) as (l1 & l2 & Hc & -> & _).
        simpl. rewrite Hc in Hv. apply Forall_app in Hv as [H1 H2].
        apply Forall_cons in H2 as [_ H2]. by apply Forall_app.
      * by rewrite coll_delete_one_None.
    + by rewrite delete_concept_malformed.
Qed.

Lemma serve_unique_ids (r : request) w :
  unique_ids (concepts w) → unique_ids (concepts (serve r w)).
Proof.
  intros Hu. destruct (routes_preserve_unique_ids w Hu) as (Ha & Hp & Hd).
  destruct r as [gen cm| |id|id u|id]; simpl; auto.
  - by rewrite (proj2 (reads_keep_concepts "" w)).
  - by rewrite (proj1 (reads_keep_concepts id w)).
Qed.

(** X9. Whatever requests are served, in whatever order, a collection
    with distinct identifiers and valid concepts stays one: no route
    duplicates an identifier, and none stores a document that fails
    validation. *)
Theorem serve_all_well_kept (rs : list request) w :
  well_kept (concepts w) → well_kept (concepts (serve_all rs w)).
Proof.
  revert w. induction rs as [|r rs IH]; intros w Hw; [done|].
  simpl. apply IH. destruct Hw as [Hu Hv].
  split; [by apply serve_unique_ids | by apply serve_valid].
Qed.

(** X11. Starting from an empty collection, after any history of
    requests the listing succeeds: validation never fails on what the
    routes themselves stored. *)
Theorem get_concepts_after_any_history (rs : list request) :
  ∃ ms, (get_concepts (serve_all rs (World [] []))).1 = Ok ms ∧
        length ms
        = (length (concepts (serve_all rs (World [] []))) `min` 1000)%nat.
Proof.
  assert (well_kept (concepts (serve_all rs (World [] [])))) as [_ Hv].
  { apply serve_all_well_kept. split; [split|]; simpl; constructor. }
  set (w := serve_all rs (World [] [])) in *.
  destruct (mapM ConceptModel_validate (take 1000 (concepts w))) as [ms|] eqn:Hms.
  - exists ms. split.
    + unfold get_concepts, find_to_list. rewrite bind_run.
      by rewrite (mapM_ConceptModel_new _ ms).
    + apply length_mapM in Hms. rewrite <- Hms, length_take. lia.
  - apply mapM_None in Hms. apply Exists_exists in Hms as (d & Hd & Hnone).
    apply subseteq_take in Hd.
    rewrite Forall_forall in Hv. destruct (Hv d Hd) as [? ?]. congruence.
Qed.

(** X10. On a collection of valid concepts an update has three
    outcomes only: it returns a valid concept, or it fails with status
    400, or with status 404. The key errors of a document without name
    or usage cannot happen. *)
Theorem update_concept_on_valid id (u : UpdateConceptModel) w :
  Forall (λ d, is_Some (ConceptModel_validate d)) (concepts w) →
  (∃ r, (update_concept id u w).1 = Ok (Some r) ∧
        is_Some (ConceptModel_validate r)) ∨
  status_of (update_concept id u w).1 = Some 400 ∨
  status_of (update_concept id u w).1 = Some 404.
Proof.
  intros Hv.
  destruct (update_concept_cases id u w)
    as [[_ H]|(o & Hp & [[_ H]|(c & Hf & H)])].
  - right. left. by rewrite H.
  - right. right. by rewrite H.
  - left. assert (is_Some (ConceptModel_validate c)) as Hc.
    { rewrite Forall_forall in Hv. apply Hv.
      by apply coll_find_one_Some in Hf as [? _]. }
    destruct H as [(_ & _ & H)|(Ht & [[k H]|(vn & vu & _ & _ & H)])].
    + rewrite H. by exists c.
    + destruct (validate_fields c Hc) as (n & us & Hn & Hu).
      pose proof (update_concept_touched id u w o c _ _ Hp Hf Hn Hu Ht) as H'.
      simpl in H'. rewrite H' in H. discriminate H.
    + rewrite H. eexists. split; [done|]. by apply merged_validate.
Qed.

(** ** Routes in sequence *)

(** X4. What create stores can be read back: once a concept is created
    under a new identifier, resolving a string that parses to that
    identifier returns the created record, through the route, through
    the helper, and through an update with an empty body. *)
Theorem create_then_resolve gen (cm : ConceptModel) id w :
  (∀ d : document, d ∈ concepts w → d !! "_id" ≠ Some (VOid gen)) →
  ObjectId_parse id = Some gen →
  ∃ r,
    (add_concept gen cm w).1 = Ok (Some r) ∧
    (get_concept_by_id id (add_concept gen cm w).2).1 = Ok r ∧
    (find_concept_by_id id (add_concept gen cm w).2).1 = Ok r ∧
    (update_concept id (Build_UpdateConceptModel None None)
       (add_concept gen cm w).2).1 = Ok (Some r).
Proof.
  intros Hfresh%coll_find_one_None Hp.
  rewrite (add_concept_run _ cm _ Hfresh). simpl.
  set (r := <["_id" := VOid gen]> (ConceptModel_model_dump_exclude_id cm)).
  set (w1 := World (concepts w ++ [r]) _).
  assert (coll_find_one (VOid gen) (concepts w1) = Some r) as Hf.
  { simpl. rewrite coll_find_one_app, Hfresh. simpl.
    assert (matches_id (VOid gen) r = true) as ->; [|done].
    apply matches_id_true, lookup_insert_eq. }
  exists r. split; [done|].
  rewrite get_concept_by_id_run, find_concept_by_id_run, Hp, Hf.
  split; [done|]. split; [done|].
  by rewrite (update_concept_noop id _ w1 gen r).
Qed.

(** X5. Deleting what was just created undoes the creation: the route
    answers 200 and the collection is the one before the creation. *)
Theorem create_then_delete gen (cm : ConceptModel) id w :
  (∀ d : document, d ∈ concepts w → d !! "_id" ≠ Some (VOid gen)) →
  ObjectId_parse id = Some gen →
  ∃ resp w2,
    delete_concept id (add_concept gen cm w).2 = (Ok resp, w2) ∧
    response_status_code resp = 200 ∧
    concepts w2 = concepts w.
Proof.
  intros Hfresh%coll_find_one_None Hp.
  rewrite (add_concept_run _ cm _ Hfresh). simpl.
  rewrite (delete_concept_run _ _ _ Hp). simpl.
  rewrite coll_delete_one_snoc; [|done|apply lookup_insert_eq].
  simpl. by eexists _, _.
Qed.

(** X6. The listing does not see a creation beyond the cap: when 1000
    records or more are stored, listing after a creation returns what
    listing before it returns. *)
Theorem create_beyond_cap_not_listed gen (cm : ConceptModel) w :
  (1000 ≤ length (concepts w))%nat →
  (get_concepts (add_concept gen cm w).2).1 = (get_concepts w).1.
Proof.
  intros Hlen. unfold get_concepts, find_to_list. rewrite !bind_run.
  assert (take 1000 (concepts (add_concept gen cm w).2)
          = take 1000 (concepts w)) as ->.
  { destruct (add_concept_concepts gen cm w) as [->|[_ ->]]; [done|].
    by rewrite take_app_le. }
  pose proof (mapM_ConceptModel_new_result (take 1000 (concepts w))
                (log DbFind (add_concept gen cm w).2) (log DbFind w)) as Heq.
  destruct (mapM ConceptModel_new _ (log DbFind (add_concept gen cm w).2))
    as [[ms|e] w1];
    destruct (mapM ConceptModel_new _ (log DbFind w)) as [[ms'|e'] w2];
    simpl in *; congruence.
Qed.

(** X13. Below the cap a created concept is listed last: with fewer than
    1000 valid concepts stored, listing after a creation under a new
    identifier returns the former list followed by the created concept,
    with the supplied name, usage and embedding and the new identifier
    as a string. *)
Theorem create_listed_last gen (cm : ConceptModel) w :
  Forall (λ d, is_Some (ConceptModel_validate d)) (concepts w) →
  (length (concepts w) < 1000)%nat →
  (∀ d : document, d ∈ concepts w → d !! "_id" ≠ Some (VOid gen)) →
  ∃ ms,
    (get_concepts w).1 = Ok ms ∧
    (get_concepts (add_concept gen cm w).2).1
    = Ok (ms ++ [Build_ConceptModel (Some (oid_str gen)) (cm_name cm)
                                    (cm_usage cm) (cm_normalized_embedding cm)]).
Proof.
  intros Hv Hlen Hfresh%coll_find_one_None.
  destruct (mapM ConceptModel_validate (concepts w)) as [ms|] eqn:Hms.
  2:{ apply mapM_None in Hms. apply Exists_exists in Hms as (d & Hd & Hnone).
      rewrite Forall_forall in Hv. destruct (Hv d Hd) as [? ?]. congruence. }
  exists ms. unfold get_concepts, find_to_list. rewrite !bind_run.
  rewrite (add_concept_run _ cm _ Hfresh). simpl.
  rewrite !take_ge by (rewrite ?length_app; simpl; lia).
  split; [by rewrite (mapM_ConceptModel_new _ ms)|].
  rewrite (mapM_ConceptModel_new _
             (ms ++ [Build_ConceptModel (Some (oid_str gen)) (cm_name cm)
                       (cm_usage cm) (cm_normalized_embedding cm)])); [done|].
  apply mapM_Some. apply Forall2_app; [by apply mapM_Some|].
  constructor; [apply created_validate | constructor].
Qed.

(** X14. A deleted identifier is gone for every route: with distinct
    identifiers, after a delete with an identifier that parses, resolving
    it answers 404 through the route and the helper, and an update of it
    fails with 404 as well. *)
Theorem delete_then_resolve id (u : UpdateConceptModel) w o :
  ObjectId_parse id = Some o →
  unique_ids (concepts w) →
  status_of (get_concept_by_id id (delete_concept id w).2).1 = Some 404 ∧
  status_of (find_concept_by_id id (delete_concept id w).2).1 = Some 404 ∧
  status_of (update_concept id u (delete_concept id w).2).1 = Some 404.
Proof.
  intros Hp Hu.
  assert (coll_find_one (VOid o) (concepts (delete_concept id w).2) = None)
    as Hgone.
  { rewrite (delete_concept_run _ _ _ Hp). simpl.
    destruct (coll_delete_one (VOid o) (concepts w)) as [n coll'] eqn:Hd.
    by eapply coll_delete_one_gone. }
  rewrite get_concept_by_id_run, find_concept_by_id_run, Hp, Hgone.
  split; [done|]. split; [done|].
  by apply (proj2 (update_concept_fails id u _) o).
Qed.

End More.

(** * The routes at work on the sample runtime *)

Import Sample.

Lemma update_concept_embedding_witness :
  ∃ r w',
    update_concept id1 {| ucm_name := None; ucm_usage := Some "baz" |} w0
    = (Ok (Some r), w') ∧
    coll_find_one (VOid id1) (concepts w') = Some r ∧
    r !! "name" = Some (VStr "Foo") ∧
    r !! "usage" = Some (VStr "baz") ∧
    r !! "normalized_embedding" = Some (VList (embed "Foo: baz")).
Proof.
  apply (update_concept_embedding id1
           {| ucm_name := None; ucm_usage := Some "baz" |} w0 id1 foo "Foo" "bar");
    [reflexivity | reflexivity | reflexivity | reflexivity | right; eexists; reflexivity].
Defined.

(** Create stores the embedding its caller chose, which is not the one
    of the stored name and usage. *)
Lemma add_concept_keeps_client_embedding :
  let r : document :=
    {[ "_id" := VOid id3; "name" := VStr "Foo"; "usage" := VStr "bar";
       "normalized_embedding" := VList [7] ]} in
  (add_concept id3
     {| cm_id := None; cm_name := "Foo"; cm_usage := "bar";
        cm_normalized_embedding := Some [7] |} w0).1
  = Ok (Some r) ∧
  r !! "normalized_embedding" = Some (VList [7]) ∧
  embed (embed_text "Foo" "bar") = [8] ∧
  ¬ embedding_consistent r.
Proof.
  intros r. split; [reflexivity|].
  split; [reflexivity|]. split; [reflexivity|].
  intros (vn & vu & Hn & Hu & He).
  assert (r !! "name" = Some (VStr "Foo")) as Hn' by reflexivity.
  assert (r !! "usage" = Some (VStr "bar")) as Hu' by reflexivity.
  assert (r !! "normalized_embedding" = Some (VList [7])) as He' by reflexivity.
  rewrite Hn' in Hn. rewrite Hu' in Hu. rewrite He' in He.
  injection Hn as <-. injection Hu as <-. discriminate He.
Qed.

Lemma update_concept_refreshes_embedding_witness :
  let body := {| ucm_name := Some "Quux"; ucm_usage := None |} in
  let r : document :=
    {[ "_id" := VOid id2; "name" := VStr "Quux"; "usage" := VStr "quux";
       "normalized_embedding" := VList [10] ]} in
  (update_concept id2 body w0).1 = Ok (Some r) ∧
  r ∈ concepts (update_concept id2 body w0).2 ∧
  embedding_consistent r ∧
  ∀ d, d ∈ concepts (update_concept id2 body w0).2 →
       d ∈ concepts w0 ∨ (d = r ∧ embedding_consistent d).
Proof.
  intros body r.
  assert (update_concept id2 body w0
          = (Ok (Some r), (update_concept id2 body w0).2)) as Hrun
    by reflexivity.
  destruct (update_concept_refreshes_embedding id2 body w0 r _ Hrun)
    as (_ & Hin & H1 & _ & H3).
  split; [by rewrite Hrun|]. split; [exact Hin|].
  split; [apply H1; left; eexists; reflexivity | exact H3].
Defined.

Lemma update_concept_frame_witness :
  ∃ r w',
    update_concept id1 {| ucm_name := Some "X"; ucm_usage := None |} w0
    = (Ok (Some r), w') ∧
    coll_find_one (VOid id1) (concepts w') = Some r ∧
    r !! "usage" = Some (VStr "bar") ∧
    r !! "_id" = Some (VOid id1).
Proof.
  destruct (update_concept_frame id1
              {| ucm_name := Some "X"; ucm_usage := None |} w0 id1 foo
              (VStr "Foo") (VStr "bar"))
    as (r & w' & Hrun & Hf & _ & Hrest);
    [reflexivity | reflexivity | reflexivity | reflexivity | |].
  { intros Hempty.
    assert (update_data_dict_of {| ucm_name := Some "X"; ucm_usage := None |}
            !! "name" = Some (VStr "X")) as Hx by reflexivity.
    rewrite Hempty in Hx. discriminate Hx. }
  destruct (Hrest eq_refl) as [Hu Hk].
  exists r, w'. split; [exact Hrun|]. split; [exact Hf|].
  split; [exact Hu | apply Hk; discriminate].
Defined.

Lemma update_concept_no_op_witness :
  update_concept id1 {| ucm_name := None; ucm_usage := None |} w0
  = (Ok (Some foo), World [foo; qux] [DbFindOne (VOid id1)]).
Proof.
  destruct (update_concept_no_op id1 {| ucm_name := None; ucm_usage := None |}
              w0 id1 foo)
    as (_ & w' & Hrun & Hc & Ht & _);
    [reflexivity | reflexivity | reflexivity | reflexivity |].
  rewrite Hrun. destruct w' as [c' t']. simpl in Hc, Ht. by rewrite Hc, Ht.
Defined.

Lemma update_concept_failure_clean_witness :
  let body := {| ucm_name := Some "X"; ucm_usage := None |} in
  read_only w0 (update_concept id3 body w0).2 ∧
  read_only w0 (update_concept "xyz" body w0).2.
Proof.
  intros body. split.
  - exact (update_concept_failure_clean id3 body w0
             (HTTPException 404 ("Concept not found with id=" +:+ id3))
             (update_concept id3 body w0).2 eq_refl).
  - exact (update_concept_failure_clean "xyz" body w0
             (HTTPException 400 "Invalid concept ID format: xyz")
             (update_concept "xyz" body w0).2 eq_refl).
Defined.

(** C6. The route at a malformed identifier: [ObjectId] raises, nothing
    catches it, and the parse error escapes the route with the world
    untouched. It is not a 404, nor the 400 with which
    [find_concept_by_id] and [get_concept_by_id] answer the same
    identifier. *)
Lemma delete_concept_malformed_escapes :
  delete_concept "not-an-object-id" w0
  = (Raise (InvalidId "not-an-object-id"), w0) ∧
  status_of (delete_concept "not-an-object-id" w0).1 ≠ Some 404 ∧
  status_of (find_concept_by_id "not-an-object-id" w0).1 = Some 400 ∧
  status_of (get_concept_by_id "not-an-object-id" w0).1 = Some 400.
Proof.
  split; [reflexivity|]. split; [discriminate|]. split; reflexivity.
Qed.

Lemma unique_ids_w0 : unique_ids (concepts w0).
Proof.
  split.
  - apply (bool_decide_unpack _). vm_compute. exact I.
  - repeat constructor; eexists; reflexivity.
Defined.

Lemma delete_concept_well_formed_witness :
  ∃ resp w',
    delete_concept id1 w0 = (Ok resp, w') ∧
    response_status_code resp = 200 ∧
    concepts w' = [qux] ∧
    status_of (delete_concept id1 w').1 = Some 404.
Proof.
  pose proof (delete_concept_well_formed id1 w0 id1 eq_refl unique_ids_w0) as H.
  assert (coll_find_one (VOid id1) (concepts w0) = Some foo) as Hfoo
    by reflexivity.
  rewrite Hfoo in H.
  destruct H as (l1 & l2 & resp & w' & Hc & Hrun & Hs & Hc' & H404 & _).
  exists resp, w'. split; [exact Hrun|]. split; [exact Hs|]. split; [|exact H404].
  assert (w' = (delete_concept id1 w0).2) as -> by (by rewrite Hrun).
  reflexivity.
Defined.

Lemma get_concepts_capped_witness :
  ∃ ms w',
    get_concepts (seeded 1500) = (Ok ms, w') ∧
    length ms = 1000%nat.
Proof.
  destruct (get_concepts_capped (seeded 1500))
    as (ms & w' & Hrun & _ & _ & H1500 & _).
  - apply (bool_decide_unpack _). vm_compute. exact I.
  - exists ms, w'. split; [exact Hrun|]. apply H1500.
    reflexivity.
Defined.



(** ** The further properties on the sample runtime *)

Lemma valid_w0 :
  Forall (λ d, is_Some (ConceptModel_validate d)) (concepts w0).
Proof. repeat constructor; eexists; reflexivity. Defined.

Lemma update_concept_in_place_witness :
  let body := {| ucm_name := None; ucm_usage := Some "baz" |} in
  ∃ r w' l1 l2,
    update_concept id2 body w0 = (Ok (Some r), w') ∧
    concepts w0 = l1 ++ qux :: l2 ∧
    concepts w' = l1 ++ r :: l2 ∧
    r !! "_id" = Some (VOid id2) ∧
    length (concepts w') = length (concepts w0).
Proof.
  intros body.
  apply (update_concept_in_place id2 body w0 id2 qux (VStr "Qux") (VStr "quux"));
    [reflexivity | reflexivity | reflexivity | reflexivity
    | right; eexists; reflexivity].
Defined.

Lemma update_concept_idempotent_witness :
  let body := {| ucm_name := Some "Bar"; ucm_usage := None |} in
  ∃ w2,
    update_concept id1 body (update_concept id1 body w0).2
    = ((update_concept id1 body w0).1, w2) ∧
    concepts w2 = concepts (update_concept id1 body w0).2.
Proof.
  intros body.
  exact (update_concept_idempotent id1 body w0
           {[ "_id" := VOid id1; "name" := VStr "Bar"; "usage" := VStr "bar";
              "normalized_embedding" := VList [8] ]}
           (update_concept id1 body w0).2 eq_refl).
Defined.

Lemma update_concept_missing_field_witness :
  let bare : document := {[ "_id" := VOid id1; "name" := VStr "Foo" ]} in
  update_concept id1 {| ucm_name := Some "X"; ucm_usage := Some "y" |}
    (World [bare] [])
  = (Raise (KeyError "usage"), World [bare] [DbFindOne (VOid id1)]).
Proof.
  intros bare.
  exact (update_concept_missing_field (Ext:=runtime) id1
           {| ucm_name := Some "X"; ucm_usage := Some "y" |}
           (World [bare] []) id1 bare eq_refl eq_refl
           (or_introl (ex_intro _ "X" eq_refl)) (or_intror eq_refl)).
Defined.

Lemma malformed_id_leaves_world_witness :
  (update_concept "xyz" {| ucm_name := Some "X"; ucm_usage := None |} w0).2 = w0 ∧
  delete_concept "xyz" w0 = (Raise (InvalidId "xyz"), w0).
Proof.
  destruct (malformed_id_leaves_world "xyz"
              {| ucm_name := Some "X"; ucm_usage := None |} w0 eq_refl)
    as (_ & _ & Hu & Hd & _).
  split; [exact Hu | exact Hd].
Defined.

Lemma serve_all_well_kept_witness :
  well_kept
    (concepts
       (serve_all
          [POST_concepts id3
             {| cm_id := None; cm_name := "A"; cm_usage := "b";
                cm_normalized_embedding := None |};
           PUT_concept id3 {| ucm_name := None; ucm_usage := Some "c" |};
           DELETE_concept id1; GET_concepts]
          w0)).
Proof.
  apply serve_all_well_kept. split; [exact unique_ids_w0 | exact valid_w0].
Defined.

Lemma update_concept_on_valid_witness :
  let body := {| ucm_name := Some "X"; ucm_usage := None |} in
  ((∃ r, (update_concept id2 body w0).1 = Ok (Some r) ∧
         is_Some (ConceptModel_validate r)) ∨
   status_of (update_concept id2 body w0).1 = Some 400 ∨
   status_of (update_concept id2 body w0).1 = Some 404).
Proof.
  intros body. exact (update_concept_on_valid id2 body w0 valid_w0).
Defined.

Lemma fresh_id3_w0 :
  ∀ d : document, d ∈ concepts w0 → d !! "_id" ≠ Some (VOid id3).
Proof. apply coll_find_one_None. reflexivity. Defined.

Lemma create_then_resolve_witness :
  let cm := {| cm_id := None; cm_name := "A"; cm_usage := "b";
               cm_normalized_embedding := None |} in
  ∃ r,
    (add_concept id3 cm w0).1 = Ok (Some r) ∧
    (get_concept_by_id id3 (add_concept id3 cm w0).2).1 = Ok r ∧
    (find_concept_by_id id3 (add_concept id3 cm w0).2).1 = Ok r ∧
    (update_concept id3 (Build_UpdateConceptModel None None)
       (add_concept id3 cm w0).2).1 = Ok (Some r).
Proof.
  intros cm.
  exact (create_then_resolve (Ext:=runtime) id3 cm id3 w0 fresh_id3_w0 eq_refl).
Defined.

Lemma create_then_delete_witness :
  let cm := {| cm_id := None; cm_name := "A"; cm_usage := "b";
               cm_normalized_embedding := None |} in
  ∃ resp w2,
    delete_concept id3 (add_concept id3 cm w0).2 = (Ok resp, w2) ∧
    response_status_code resp = 200 ∧
    concepts w2 = concepts w0.
Proof.
  intros cm.
  exact (create_then_delete (Ext:=runtime) id3 cm id3 w0 fresh_id3_w0 eq_refl).
Defined.

Lemma seeded_length n : length (concepts (seeded n)) = n.
Proof.
  change (concepts (seeded n)) with (nth_doc <$> seq 0 n).
  by rewrite length_fmap, length_seq.
Defined.

Lemma create_beyond_cap_not_listed_witness :
  let cm := {| cm_id := None; cm_name := "A"; cm_usage := "b";
               cm_normalized_embedding := None |} in
  (get_concepts (add_concept id3 cm (seeded 1000)).2).1
  = (get_concepts (seeded 1000)).1.
Proof.
  intros cm. apply (create_beyond_cap_not_listed (Ext:=runtime) id3 cm).
  rewrite seeded_length. lia.
Defined.

Lemma create_listed_last_witness :
  let cm := {| cm_id := Some "client-chosen"; cm_name := "A"; cm_usage := "b";
               cm_normalized_embedding := Some [1; 2] |} in
  ∃ ms,
    (get_concepts w0).1 = Ok ms ∧
    (get_concepts (add_concept id3 cm w0).2).1
    = Ok (ms ++ [{| cm_id := Some id3; cm_name := "A"; cm_usage := "b";
                    cm_normalized_embedding := Some [1; 2] |}]).
Proof.
  intros cm.
  apply (create_listed_last (Ext:=runtime) id3 cm w0 valid_w0);
    [simpl; lia | exact fresh_id3_w0].
Defined.

Lemma delete_then_resolve_witness :
  status_of (get_concept_by_id id1 (delete_concept id1 w0).2).1 = Some 404 ∧
  status_of (find_concept_by_id id1 (delete_concept id1 w0).2).1 = Some 404 ∧
  status_of (update_concept id1 {| ucm_name := Some "X"; ucm_usage := None |}
               (delete_concept id1 w0).2).1 = Some 404.
Proof.
  exact (delete_then_resolve id1 {| ucm_name := Some "X"; ucm_usage := None |}
           w0 id1 eq_refl unique_ids_w0).
Defined.
